(** * The AI receptionist voice agent: conversation-turn controller and
      [POST /api/respond] route

    A shallow embedding of [src/components/voice-agent-panel.tsx] (the React
    panel: history buffer, [handleSend], [synthSpeak], the speech-recognition
    callbacks) and of [src/app/api/respond/route.ts] (the server handler),
    followed by the properties of the specification that concern them.

    Conventions of the embedding.
    - A JavaScript string is a [string]: a sequence of 8-bit code units read
      as the code points U+0000..U+00FF.  [String.prototype.trim] is modelled
      on that range (TAB, LF, VT, FF, CR, SPACE and NBSP are its white space).
    - A parsed JSON document is a [JSON] value; [undefined] is [None] of
      [option JSON].  A JSON number is an IEEE double; it is carried by
      what the sources observe of it: whether it is zero, and the text
      [String] gives for it.
    - React state is a record of the latest values; the values a handler
      closed over at the last render are a second record of the same type,
      refreshed by the [Render] event.  Refs are plain fields: they are read
      when a handler runs, not when it was created.  A passive effect
      ([useEffect]) is scheduled by the commit and runs later, over the
      values of its own render: at the [Effect] event, and at the latest
      when React renders again.
    - An [async] function is cut at its [await] of the network: the part
      before it runs at the call, the part after it runs when the request
      settles.
    - What the browser lacks is part of the platform: a missing
      [SpeechSynthesisUtterance] or [window.speechSynthesis] makes
      [synthSpeak] throw. *)

From Stdlib Require Import ZArith QArith Lia Ascii.
From stdpp Require Import base list strings pretty.

Local Open Scope string_scope.
Local Open Scope list_scope.
Local Open Scope nat_scope.

(** ** JavaScript values and the library functions the sources call *)

Module JS.

(** White space of [trim], within the code points U+0000..U+00FF. *)
Definition is_whitespace (c : ascii) : bool :=
  let n := Ascii.N_of_ascii c in
  ((n =? 9) || (n =? 10) || (n =? 11) || (n =? 12) || (n =? 13)
   || (n =? 32) || (n =? 160))%N.

Fixpoint trimStart (s : string) : string :=
  match s with
  | EmptyString => EmptyString
  | String c s' => if is_whitespace c then trimStart s' else s
  end.

Fixpoint trimEnd (s : string) : string :=
  match s with
  | EmptyString => EmptyString
  | String c s' =>
      match trimEnd s' with
      | EmptyString => if is_whitespace c then EmptyString else String c EmptyString
      | t => String c t
      end
  end.

(** [s.trim()] *)
Definition trim (s : string) : string := trimEnd (trimStart s).

(** Truthiness of a string: [!s] is [true] exactly for the empty string. *)
Definition nonempty (s : string) : bool :=
  match s with EmptyString => false | String _ _ => true end.

(** [arr.slice(-n)] for [n >= 1]: the last [n] elements, all of them when
    the array is shorter. *)
Definition slice_last {A} (n : nat) (l : list A) : list A :=
  drop (length l - n) l.

(** [arr.at(-1)] *)
Definition at_last {A} (l : list A) : option A := last l.

(** A JSON number, an IEEE double, by what the sources observe of it:
    whether it is zero (its truthiness), and the text [String] gives for it
    (the engine's [Number::toString]). *)
Record Number : Type := mkNumber {
  is_zero : bool;
  shown : string
}.

(** A parsed JSON document.  An object keeps its members in source order;
    [JSON.parse] lets a later duplicate key win. *)
#[warnings="-register-all"]
Inductive JSON : Type :=
| JNull
| JBool (b : bool)
| JNum (n : Number)
| JStr (s : string)
| JArr (items : list JSON)
| JObj (members : list (string * JSON)).

(** [ToBoolean] *)
Definition truthy (v : JSON) : bool :=
  match v with
  | JNull => false
  | JBool b => b
  | JNum n => negb (is_zero n)
  | JStr s => nonempty s
  | JArr _ | JObj _ => true
  end.

Fixpoint lookup_member (k : string) (ms : list (string * JSON)) : option JSON :=
  match ms with
  | [] => None
  | (k', v) :: rest =>
      match lookup_member k rest with
      | Some v' => Some v'
      | None => if String.eqb k k' then Some v else None
      end
  end.

(** [v.k] for a value [v] that is neither [null] nor [undefined], and a key
    [k] that no prototype defines (every key the sources read is such a
    key): an own member of an object, [undefined] on anything else. *)
Definition get (k : string) (v : JSON) : option JSON :=
  match v with
  | JObj ms => lookup_member k ms
  | _ => None
  end.

(** [typeof v === "object"] for a non-null [v]: the values [in] accepts. *)
Definition is_object (v : JSON) : bool :=
  match v with
  | JArr _ | JObj _ => true
  | _ => false
  end.

(** [String(v)] *)
Fixpoint ToString (v : JSON) : string :=
  match v with
  | JNull => "null"
  | JBool true => "true"
  | JBool false => "false"
  | JNum n => shown n
  | JStr s => s
  | JArr items =>
      String.concat ","
        (map (fun x => match x with JNull => "" | _ => ToString x end) items)
  | JObj _ => "[object Object]"
  end.

(** What a [throw] carries: an [Error] instance with its [message], or some
    other value. *)
Inductive Thrown : Type :=
| ErrorWith (message : string)
| NotAnError.

(** The [TypeError] of [k in v] on a primitive [v]; the wording is V8's. *)
Definition in_TypeError (k : string) (v : JSON) : Thrown :=
  ErrorWith ("Cannot use 'in' operator to search for '" +:+ k +:+ "' in "
             +:+ ToString v).

(** The [TypeError] of [null.k]; the wording is V8's. *)
Definition null_read_TypeError (k : string) : Thrown :=
  ErrorWith ("Cannot read properties of null (reading '" +:+ k +:+ "')").

(** [response.json()]: the parsed document, or the rejection. *)
Inductive Body : Type :=
| Parsed (v : JSON)
| Unparsable (e : Thrown).

(** A settled [fetch]: rejected, or a response with its status and body. *)
Inductive FetchOutcome : Type :=
| Rejected (e : Thrown)
| Response (status : Z) (body : Body).

(** [response.ok] *)
Definition ok (status : Z) : bool := (200 <=? status)%Z && (status <=? 299)%Z.

(** [err instanceof Error ? err.message : fallback] *)
Definition message_or (fallback : string) (err : Thrown) : string :=
  match err with
  | ErrorWith m => m
  | NotAnError => fallback
  end.

End JS.

(** ** The panel: [src/components/voice-agent-panel.tsx] *)

Module Panel.
Import JS.

Inductive Role : Type := user | assistant.

Definition role_name (r : Role) : string :=
  match r with
  | user => "user"
  | assistant => "assistant"
  end.

Record Message : Type := mkMessage {
  id : string;
  role : Role;
  content : string;
  createdAt : Z
}.

Inductive RecognitionStatus : Type := idle | initializing | listening.

Record RecognitionResult : Type := mkResult {
  isFinal : bool;
  alternative0 : string          (* result[0].transcript *)
}.

Record RecognitionEvent : Type := mkRecognitionEvent {
  resultIndex : nat;
  results : list RecognitionResult
}.

(** What one [createMessage] call reads from its surroundings: the value of
    [makeId()] and of [Date.now()]. *)
Record Entropy : Type := mkEntropy {
  uuid : string;
  now : Z
}.

Definition createMessage (r : Role) (c : string) (e : Entropy) : Message :=
  {| id := role_name r +:+ "-" +:+ uuid e;
     role := r;
     content := c;
     createdAt := now e |}.

Definition MAX_HISTORY : nat := 12.

Definition greeting : string :=
  "Hello! I'm your AI receptionist. Tap the microphone or type to tell me how I can help.".

(** The seven [useState] cells. *)
Record State : Type := mkState {
  messages : list Message;
  status : RecognitionStatus;
  transcript : string;
  pendingInput : string;
  error : option string;
  isProcessing : bool;
  autoSpeak : bool
}.

(** The [SpeechSynthesisUtterance] built by [synthSpeak]. *)
Record Utterance : Type := mkUtterance {
  text : string;
  rate : Q;
  pitch : Q;
  lang : string
}.

(** The JSON body of the request to [/api/respond]. *)
Record Request : Type := mkRequest {
  prompt : string;
  history : list (Role * string)
}.

(** The recognizer object kept in [recognitionRef].  Its [onresult] callback
    closed over the [handleSend] of the render in which [ensureRecognition]
    built it; [handleSend] in turn closed over [isProcessing] and, through
    [synthSpeak], over [autoSpeak]. *)
Record Recognizer : Type := mkRecognizer {
  onresult_isProcessing : bool;
  onresult_autoSpeak : bool
}.

(** What the browser offers. *)
Record Platform : Type := mkPlatform {
  window_defined : bool;          (* typeof window !== "undefined" *)
  recognition_supported : bool;   (* window.SpeechRecognition ?? window.webkitSpeechRecognition *)
  utterance_defined : bool;       (* SpeechSynthesisUtterance is defined *)
  speechSynthesis_defined : bool  (* window.speechSynthesis is defined *)
}.

(** A [handleSend] call suspended at [await fetch(...)]: the request it
    sent and the [autoSpeak] its [synthSpeak] closed over. *)
Record Suspended : Type := mkSuspended {
  sent : Request;
  resume_autoSpeak : bool
}.

Record World : Type := mkWorld {
  state : State;                       (* latest value of each useState cell *)
  rendered : State;                    (* the values the handlers of the last render closed over *)
  recognitionRef : option Recognizer;
  speechAllowedRef : bool;
  messagesRef : list Message;
  platform : Platform;
  speechQueue : list Utterance;        (* window.speechSynthesis: speaking first, then pending *)
  fetched : list Request;              (* every fetch("/api/respond") issued, oldest first *)
  awaiting : list Suspended;           (* handleSend calls not yet settled *)
  created : list Message;              (* history variable: every Message appended to the
                                          buffer since the page loaded, oldest first *)
  pendingEffect : option (list Message); (* the effect on [messages] scheduled by the last
                                          commit and not yet run, with its render's messages *)
  messagesReplaced : bool              (* [setMessages] has stored a new array since the
                                          last render *)
}.

#[global] Instance Role_eq_dec : EqDecision Role.
Proof. solve_decision. Defined.

#[global] Instance Message_eq_dec : EqDecision Message.
Proof. solve_decision. Defined.

(** *** Field updates *)

Definition with_state (f : State → State) (w : World) : World :=
  {| state := f (state w); rendered := rendered w;
     recognitionRef := recognitionRef w; speechAllowedRef := speechAllowedRef w;
     messagesRef := messagesRef w; platform := platform w;
     speechQueue := speechQueue w; fetched := fetched w;
     awaiting := awaiting w; created := created w;
     pendingEffect := pendingEffect w;
     messagesReplaced := messagesReplaced w |}.

Definition set_rendered (v : State) (w : World) : World :=
  mkWorld (state w) v (recognitionRef w) (speechAllowedRef w) (messagesRef w)
          (platform w) (speechQueue w) (fetched w) (awaiting w) (created w)
          (pendingEffect w) (messagesReplaced w).

Definition set_messagesReplaced (v : bool) (w : World) : World :=
  mkWorld (state w) (rendered w) (recognitionRef w) (speechAllowedRef w)
          (messagesRef w) (platform w) (speechQueue w) (fetched w)
          (awaiting w) (created w) (pendingEffect w) v.

(** Every [setMessages] of the sources passes an array built by the call
    ([[...messagesRef.current, m].slice(-MAX_HISTORY)]): the cell then holds
    an array other than the one of the last render. *)
Definition setMessages (v : list Message) (w : World) : World :=
  set_messagesReplaced true
    (with_state (λ s, mkState v (status s) (transcript s) (pendingInput s)
                              (error s) (isProcessing s) (autoSpeak s)) w).

Definition setStatus (v : RecognitionStatus) : World → World :=
  with_state (λ s, mkState (messages s) v (transcript s) (pendingInput s)
                           (error s) (isProcessing s) (autoSpeak s)).

Definition setTranscript (v : string) : World → World :=
  with_state (λ s, mkState (messages s) (status s) v (pendingInput s)
                           (error s) (isProcessing s) (autoSpeak s)).

Definition setPendingInput (v : string) : World → World :=
  with_state (λ s, mkState (messages s) (status s) (transcript s) v
                           (error s) (isProcessing s) (autoSpeak s)).

Definition setError (v : option string) : World → World :=
  with_state (λ s, mkState (messages s) (status s) (transcript s)
                           (pendingInput s) v (isProcessing s) (autoSpeak s)).

Definition setIsProcessing (v : bool) : World → World :=
  with_state (λ s, mkState (messages s) (status s) (transcript s)
                           (pendingInput s) (error s) v (autoSpeak s)).

(** [setAutoSpeak((value) => !value)] *)
Definition toggleAutoSpeak : World → World :=
  with_state (λ s, mkState (messages s) (status s) (transcript s)
                           (pendingInput s) (error s) (isProcessing s)
                           (negb (autoSpeak s))).

Definition set_recognitionRef (v : option Recognizer) (w : World) : World :=
  mkWorld (state w) (rendered w) v (speechAllowedRef w) (messagesRef w)
          (platform w) (speechQueue w) (fetched w) (awaiting w) (created w)
          (pendingEffect w) (messagesReplaced w).

Definition set_speechAllowedRef (v : bool) (w : World) : World :=
  mkWorld (state w) (rendered w) (recognitionRef w) v (messagesRef w)
          (platform w) (speechQueue w) (fetched w) (awaiting w) (created w)
          (pendingEffect w) (messagesReplaced w).

Definition set_messagesRef (v : list Message) (w : World) : World :=
  mkWorld (state w) (rendered w) (recognitionRef w) (speechAllowedRef w) v
          (platform w) (speechQueue w) (fetched w) (awaiting w) (created w)
          (pendingEffect w) (messagesReplaced w).

Definition set_speechQueue (v : list Utterance) (w : World) : World :=
  mkWorld (state w) (rendered w) (recognitionRef w) (speechAllowedRef w)
          (messagesRef w) (platform w) v (fetched w) (awaiting w) (created w)
          (pendingEffect w) (messagesReplaced w).

Definition set_awaiting (v : list Suspended) (w : World) : World :=
  mkWorld (state w) (rendered w) (recognitionRef w) (speechAllowedRef w)
          (messagesRef w) (platform w) (speechQueue w) (fetched w) v (created w)
          (pendingEffect w) (messagesReplaced w).

(** [fetch("/api/respond", ...)] up to its [await]: the request leaves and
    the caller is suspended. *)
Definition fetch (r : Request) (autoSpeak_c : bool) (w : World) : World :=
  mkWorld (state w) (rendered w) (recognitionRef w) (speechAllowedRef w)
          (messagesRef w) (platform w) (speechQueue w) (fetched w ++ [r])
          (awaiting w ++ [mkSuspended r autoSpeak_c]) (created w)
          (pendingEffect w) (messagesReplaced w).

(** Bookkeeping of the history variable. *)
Definition note_created (m : Message) (w : World) : World :=
  mkWorld (state w) (rendered w) (recognitionRef w) (speechAllowedRef w)
          (messagesRef w) (platform w) (speechQueue w) (fetched w)
          (awaiting w) (created w ++ [m]) (pendingEffect w) (messagesReplaced w).

Definition set_pendingEffect (v : option (list Message)) (w : World) : World :=
  mkWorld (state w) (rendered w) (recognitionRef w) (speechAllowedRef w)
          (messagesRef w) (platform w) (speechQueue w) (fetched w)
          (awaiting w) (created w) v (messagesReplaced w).


(** *** The speech output adapter *)

Definition speechSynthesis_cancel : World → World := set_speechQueue [].

Definition speechSynthesis_speak (u : Utterance) (w : World) : World :=
  set_speechQueue (speechQueue w ++ [u]) w.

(** The [ReferenceError] of [new SpeechSynthesisUtterance(text)] where the
    constructor is not defined; the wording is V8's. *)
Definition utterance_ReferenceError : Thrown :=
  ErrorWith "SpeechSynthesisUtterance is not defined".

(** The [TypeError] of [window.speechSynthesis.cancel()] where
    [speechSynthesis] is not defined; the wording is V8's. *)
Definition speechSynthesis_TypeError : Thrown :=
  ErrorWith "Cannot read properties of undefined (reading 'cancel')".

(** [synthSpeak], a [useCallback] over [autoSpeak]: [autoSpeak_c] is the
    value of that cell in the render that built the callback.  It returns,
    or throws before anything is spoken. *)
Definition synthSpeak (autoSpeak_c : bool) (txt : string) (w : World)
  : Thrown + World :=
  if negb (window_defined (platform w))
     || negb (speechAllowedRef w)
     || negb autoSpeak_c
  then inr w
  else if negb (utterance_defined (platform w)) then inl utterance_ReferenceError
  else
    let utterance := mkUtterance txt 1 (105 # 100) "en-US" in
    if negb (speechSynthesis_defined (platform w)) then inl speechSynthesis_TypeError
    else inr (speechSynthesis_speak utterance (speechSynthesis_cancel w)).

(** *** The conversation-turn controller *)

(** [history.map((entry) => ({ role: entry.role, content: entry.content }))] *)
Definition wire (h : list Message) : list (Role * string) :=
  map (λ entry, (role entry, content entry)) h.

(** [JSON.stringify({ prompt, history })] as the server parses it back. *)
Definition body_json (r : Request) : JSON :=
  JObj [("prompt", JStr (prompt r));
        ("history",
         JArr (map (λ rc, JObj [("role", JStr (role_name (fst rc)));
                                ("content", JStr (snd rc))])
                   (history r)))].

(** [handleSend] from its call to [await fetch(...)].  A [useCallback] over
    [isProcessing] and [synthSpeak]: [isProcessing_c] and [autoSpeak_c] are
    the values of the two cells in the render that built the callback. *)
Definition handleSend (isProcessing_c autoSpeak_c : bool) (input : string)
    (e : Entropy) (w : World) : World :=
  let content := trim input in
  if negb (nonempty content) || isProcessing_c then w
  else
    let userMessage := createMessage user content e in
    let history := slice_last MAX_HISTORY (messagesRef w ++ [userMessage]) in
    let w := note_created userMessage w in
    let w := set_messagesRef history w in
    let w := setMessages history w in
    let w := setPendingInput "" w in
    let w := setTranscript "" w in
    let w := setIsProcessing true w in
    let w := setError None w in
    fetch (mkRequest content (wire history)) autoSpeak_c w.

(** The [message] of the [Error] thrown for a response that is not [ok]:
    [(payload && "error" in payload && payload.error) || `Request failed (${response.status})`],
    or the [TypeError] of [in] on a truthy primitive. *)
Definition failure_message (status : Z) (payload : JSON) : Thrown :=
  let fallback := ErrorWith ("Request failed (" +:+ pretty status +:+ ")") in
  if negb (truthy payload) then fallback
  else if negb (is_object payload) then in_TypeError "error" payload
  else
    match get "error" payload with
    | Some v => if truthy v then ErrorWith (ToString v) else fallback
    | None => fallback
    end.

(** Lines 164 to 191 of the [try] block, which write nothing: the reply
    the response carries, or the exception thrown on the way to it. *)
Definition read_reply (o : FetchOutcome) : Thrown + string :=
  match o with
  | Rejected err => inl err
  | Response status body =>
      if negb (ok status) then
        (* response.json().catch(() => null) *)
        let payload := match body with Parsed v => v | Unparsable _ => JNull end in
        inl (failure_message status payload)
      else
        match body with
        | Unparsable err => inl err
        | Parsed data =>
            if negb (is_object data) then inl (in_TypeError "reply" data)
            else
              match get "reply" data with
              | Some (JStr reply) => inr reply
              | _ => inl (ErrorWith "Invalid response from server.")
              end
        end
  end.

(** The [try] block of [handleSend] after the [await]: the world it leaves,
    and the exception it throws, if any.  An exception of [synthSpeak]
    comes after the assistant turn was appended. *)
Definition handleSend_try (autoSpeak_c : bool) (o : FetchOutcome)
    (e : Entropy) (w : World) : World * option Thrown :=
  match read_reply o with
  | inl err => (w, Some err)
  | inr reply =>
      let assistantMessage := createMessage assistant (trim reply) e in
      let nextMessages :=
        slice_last MAX_HISTORY (messagesRef w ++ [assistantMessage]) in
      let w := note_created assistantMessage w in
      let w := set_messagesRef nextMessages w in
      let w := setMessages nextMessages w in
      match synthSpeak autoSpeak_c (content assistantMessage) w with
      | inr w' => (w', None)
      | inl err => (w, Some err)
      end
  end.

(** [handleSend] from the settling of its [fetch] to its end: [try],
    [catch], [finally]. *)
Definition handleSend_resume (autoSpeak_c : bool) (o : FetchOutcome)
    (e : Entropy) (w : World) : World :=
  let w :=
    match handleSend_try autoSpeak_c o e w with
    | (w', None) => w'
    | (w', Some err) =>
        setError (Some (message_or "Failed to reach the server." err)) w'
    end in
  setIsProcessing false w.

(** [handleSubmit], a [useCallback] over [handleSend] and [pendingInput]. *)
Definition handleSubmit (e : Entropy) (w : World) : World :=
  handleSend (isProcessing (rendered w)) (autoSpeak (rendered w))
             (pendingInput (rendered w)) e w.

(** *** The speech capture adapter *)

(** The [for] loop of [onresult] over [results[resultIndex ..]]:
    [(finalText, interimText)]. *)
Fixpoint gather (rs : list RecognitionResult) (finalText interimText : string)
  : string * string :=
  match rs with
  | [] => (finalText, interimText)
  | result :: rs' =>
      if isFinal result
      then gather rs' (finalText +:+ alternative0 result) interimText
      else gather rs' finalText (interimText +:+ alternative0 result)
  end.

Definition onresult (r : Recognizer) (ev : RecognitionEvent) (e : Entropy)
    (w : World) : World :=
  let '(finalText, interimText) := gather (drop (resultIndex ev) (results ev)) "" "" in
  if nonempty finalText then
    handleSend (onresult_isProcessing r) (onresult_autoSpeak r)
               (trim finalText) e (setTranscript "" w)
  else setTranscript (trim interimText) w.

Definition onstart (w : World) : World :=
  setError None (setTranscript "" (setStatus listening w)).

(** [event.error || "Voice recognition error."] *)
Definition onerror (err : string) (w : World) : World :=
  setError (Some (if nonempty err then err else "Voice recognition error."))
           (setStatus idle w).

Definition onend (w : World) : World := setStatus idle w.

(** [ensureRecognition], a [useCallback] over [handleSend]. *)
Definition ensureRecognition (w : World) : option Recognizer * World :=
  if negb (window_defined (platform w)) then (None, w)
  else
    match recognitionRef w with
    | Some r => (Some r, w)
    | None =>
        if negb (recognition_supported (platform w)) then
          (None, setError (Some "Voice input is not supported in this browser.") w)
        else
          let recognition :=
            mkRecognizer (isProcessing (rendered w)) (autoSpeak (rendered w)) in
          (Some recognition, set_recognitionRef (Some recognition) w)
    end.

(** [handleToggleRecording], a [useCallback] over [ensureRecognition] and
    [status].  [start_throws] is what [recognition.start()] throws, if it
    does. *)
Definition handleToggleRecording (start_throws : option Thrown) (w : World) : World :=
  match ensureRecognition w with
  | (None, w) => w
  | (Some _, w) =>
      match status (rendered w) with
      | listening => setStatus idle w
      | _ =>
          let w := setStatus initializing w in
          match start_throws with
          | None => w
          | Some err =>
              setStatus idle
                (setError (Some (message_or "Unable to start voice capture." err)) w)
          end
      end
  end.

(** *** The page as a transition system *)

Inductive Event : Type :=
| Render                                           (* React commits the pending state *)
| PointerDown                                      (* first-interaction listener *)
| ClickAutoSpeak
| ChangeInput (value : string)                     (* textarea onChange *)
| SubmitForm (e : Entropy)
| ClickMicrophone (start_throws : option Thrown)
| RecognitionStart
| RecognitionError (err : string)
| RecognitionEnd
| RecognitionResultEvent (ev : RecognitionEvent) (e : Entropy)
| Settle (k : nat) (o : FetchOutcome) (e : Entropy)  (* the k-th pending fetch settles *)
| Effect.                                          (* the pending passive effect runs *)

(** The effect [messagesRef.current = messages] of lines 101 to 103, run
    over the [messages] of the render that scheduled it. *)
Definition runEffect (w : World) : World :=
  match pendingEffect w with
  | Some ms => set_pendingEffect None (set_messagesRef ms w)
  | None => w
  end.

(** A render and its commit.  React first runs the passive effect still
    pending from the previous commit; the handlers are then rebuilt over the
    latest state, and the effect on [messages] is scheduled when the
    [messages] cell holds another array than at the previous render (the
    dependencies of an effect are compared by identity). *)
Definition render (w : World) : World :=
  let w := runEffect w in
  let w' := set_rendered (state w) w in
  if messagesReplaced w
  then set_messagesReplaced false (set_pendingEffect (Some (messages (state w))) w')
  else w'.

Definition step (ev : Event) (w : World) : World :=
  match ev with
  | Render => render w
  | PointerDown => set_speechAllowedRef true w
  | ClickAutoSpeak => toggleAutoSpeak w
  | ChangeInput value => setPendingInput value w
  | SubmitForm e => handleSubmit e w
  | ClickMicrophone start_throws => handleToggleRecording start_throws w
  | RecognitionStart =>
      match recognitionRef w with Some _ => onstart w | None => w end
  | RecognitionError err =>
      match recognitionRef w with Some _ => onerror err w | None => w end
  | RecognitionEnd =>
      match recognitionRef w with Some _ => onend w | None => w end
  | RecognitionResultEvent ev e =>
      match recognitionRef w with Some r => onresult r ev e w | None => w end
  | Settle k o e =>
      match awaiting w !! k with
      | Some s => handleSend_resume (resume_autoSpeak s) o e
                    (set_awaiting (delete k (awaiting w)) w)
      | None => w
      end
  | Effect => runEffect w
  end.

Fixpoint run (evs : list Event) (w : World) : World :=
  match evs with
  | [] => w
  | ev :: evs' => run evs' (step ev w)
  end.

(** The page as first rendered. *)
Definition initial (p : Platform) (e : Entropy) : World :=
  let first := [createMessage assistant greeting e] in
  let s := mkState first idle "" "" None false true in
  mkWorld s s None false first p [] [] [] first None false.

(** The lists of turns the page holds: the [messages] cell as it is and as
    it was last rendered, [messagesRef], and the list a pending effect will
    copy into [messagesRef]. *)
Definition held (w : World) (l : list Message) : Prop :=
  l = messages (state w)
  ∨ l = messages (rendered w)
  ∨ l = messagesRef w
  ∨ pendingEffect w = Some l.

(** The cap and the order: every list of turns the page holds has at most
    [MAX_HISTORY] turns, and they are turns the page appended, in the order
    in which it appended them. *)
Definition buffer_inv (w : World) : Prop :=
  ∀ l, held w l → length l ≤ MAX_HISTORY ∧ l `sublist_of` created w.

End Panel.

(** ** The route: [src/app/api/respond/route.ts] *)

Module Route.
Import JS.

Definition dq : string := String (Ascii.ascii_of_N 34) EmptyString.
Definition nl : string := String (Ascii.ascii_of_N 10) EmptyString.

(** The template literal, already trimmed. *)
Definition SYSTEM_PROMPT : string :=
  "You are " +:+ dq +:+ "Clara" +:+ dq
  +:+ ", an AI receptionist for a modern workplace. Your goals:" +:+ nl
  +:+ "- Provide warm, professional greetings." +:+ nl
  +:+ "- Quickly identify caller intent, contact details, and preferred follow-up." +:+ nl
  +:+ "- Offer clear next steps, including booking meetings, capturing messages, or escalating when needed." +:+ nl
  +:+ "- Keep responses concise (2-4 sentences) while sounding human and empathetic." +:+ nl
  +:+ "- Confirm key information back to the caller." +:+ nl
  +:+ "- If unsure, politely request clarification." +:+ nl
  +:+ "Respond in plain text without markdown lists unless specifically requested by the caller.".

Definition FALLBACK_REPLY : string :=
  "I'm sorry, but I couldn't generate a response right now.".

Inductive ChatRole : Type := system | user | assistant.

Record ChatMessage : Type := mkChat {
  role : ChatRole;
  content : string
}.

(** [process.env] as the module reads it. *)
Record Env : Type := mkEnv {
  OPENAI_API_KEY : option string;
  OPENAI_MODEL_var : option string;
  OPENAI_RESPONSIVE_MODEL : option string
}.

(** [process.env.OPENAI_MODEL ?? process.env.OPENAI_RESPONSIVE_MODEL ?? "gpt-4o-mini"] *)
Definition OPENAI_MODEL (env : Env) : string :=
  match OPENAI_MODEL_var env with
  | Some m => m
  | None =>
      match OPENAI_RESPONSIVE_MODEL env with
      | Some m => m
      | None => "gpt-4o-mini"
      end
  end.

(** The call to [https://api.openai.com/v1/chat/completions]. *)
Record UpstreamRequest : Type := mkUpstream {
  authorization : string;
  model : string;
  temperature : Q;
  max_tokens : Z;
  presence_penalty : Z;
  messages : list ChatMessage
}.

Record NextResponse : Type := mkResponse {
  status : Z;
  body : JSON
}.

(** What a call of the handler ends in. *)
Inductive Outcome : Type :=
| Returned (r : NextResponse)
| Threw (e : Thrown).

(** [NextResponse.json({ error: message }, { status })] *)
Definition error_response (message : JSON) (st : Z) : NextResponse :=
  mkResponse st (JObj [("error", message)]).

(** [NextResponse.json({ reply })] *)
Definition reply_response (reply : string) : NextResponse :=
  mkResponse 200 (JObj [("reply", JStr reply)]).

(** [typeof body.prompt === "string" ? body.prompt.trim() : ""], for a
    [body] that is not [null]. *)
Definition prompt_of (body : JSON) : string :=
  match get "prompt" body with
  | Some (JStr s) => trim s
  | _ => ""
  end.

(** [Array.isArray(body.history) ? body.history : []] *)
Definition rawHistory_of (body : JSON) : list JSON :=
  match get "history" body with
  | Some (JArr items) => items
  | _ => []
  end.

(** One turn of the [for] loop: the entry pushed for [item], if any. *)
Definition keep (item : JSON) : option ChatMessage :=
  if negb (truthy item) then None
  else
    match get "role" item, get "content" item with
    | Some (JStr r), Some (JStr c) =>
        if String.eqb r "user" && nonempty (trim c) then Some (mkChat user (trim c))
        else if String.eqb r "assistant" && nonempty (trim c)
             then Some (mkChat assistant (trim c))
        else None
    | _, _ => None
    end.

(** [conversation] after the loop over [rawHistory.slice(-12)]. *)
Definition conversation_of (rawHistory : list JSON) : list ChatMessage :=
  omap keep (slice_last 12 rawHistory).

Definition is_user (r : ChatRole) : bool :=
  match r with user => true | _ => false end.

(** [!lastMessage || lastMessage.content !== prompt || lastMessage.role !== "user"] *)
Definition must_push (conversation : list ChatMessage) (prompt : string) : bool :=
  match at_last conversation with
  | None => true
  | Some lastMessage =>
      negb (String.eqb (content lastMessage) prompt) || negb (is_user (role lastMessage))
  end.

(** [messages] as sent upstream. *)
Definition assemble (prompt : string) (rawHistory : list JSON) : list ChatMessage :=
  let conversation := conversation_of rawHistory in
  let messages := mkChat system SYSTEM_PROMPT :: conversation in
  if must_push conversation prompt then messages ++ [mkChat user prompt]
  else messages.


(** [v?.k] *)
Definition get_opt (k : string) (v : option JSON) : option JSON :=
  match v with
  | None | Some JNull => None
  | Some x => get k x
  end.

(** [v?.[0]] *)
Definition first_opt (v : option JSON) : option JSON :=
  match v with
  | Some (JArr (x :: _)) => Some x
  | Some (JStr (String c _)) => Some (JStr (String c EmptyString))
  | Some (JObj ms) => lookup_member "0" ms
  | _ => None
  end.

(** [payload.choices?.[0]?.message?.content?.trim() ?? FALLBACK], for a
    [payload] that is not [null]: the reply, or the [TypeError] of calling
    a [trim] that is not a function. *)
Definition reply_of (payload : JSON) : Thrown + string :=
  let content := get_opt "content" (get_opt "message" (first_opt (get "choices" payload))) in
  match content with
  | None | Some JNull => inr FALLBACK_REPLY
  | Some (JStr s) => inr (trim s)
  | Some _ =>
      inl (ErrorWith "payload.choices?.[0]?.message?.content?.trim is not a function")
  end.

(** [(errorPayload && errorPayload.error && errorPayload.error.message) ||
     `Upstream model error (${response.status}).`] *)
Definition upstream_error_message (st : Z) (errorPayload : JSON) : JSON :=
  let fallback := JStr ("Upstream model error (" +:+ pretty st +:+ ").") in
  if negb (truthy errorPayload) then fallback
  else
    match get "error" errorPayload with
    | Some err =>
        if negb (truthy err) then fallback
        else
          match get "message" err with
          | Some m => if truthy m then m else fallback
          | None => fallback
          end
    | None => fallback
    end.

(** The [try] block around the upstream call, with its [catch]. *)
Definition call_upstream (o : FetchOutcome) : NextResponse :=
  let caught (err : Thrown) :=
    error_response (JStr (message_or "Unexpected server error." err)) 500 in
  match o with
  | Rejected err => caught err
  | Response st b =>
      if negb (ok st) then
        (* response.json().catch(() => null) *)
        let errorPayload := match b with Parsed v => v | Unparsable _ => JNull end in
        error_response (upstream_error_message st errorPayload) 502
      else
        match b with
        | Unparsable err => caught err
        | Parsed JNull => caught (null_read_TypeError "choices")
        | Parsed payload =>
            match reply_of payload with
            | inr reply => reply_response reply
            | inl err => caught err
            end
        end
  end.

(** [POST(request)].  [request_json] is what [request.json()] settles to;
    [upstream] is the remote model, answering the one call made to it. *)
Definition POST (env : Env) (request_json : Body)
    (upstream : UpstreamRequest → FetchOutcome) : Outcome :=
  match OPENAI_API_KEY env with
  | None | Some EmptyString =>
      Returned (error_response (JStr "Server misconfigured: missing OpenAI API key.") 500)
  | Some apiKey =>
      match request_json with
      | Unparsable _ => Returned (error_response (JStr "Invalid JSON body.") 400)
      | Parsed JNull => Threw (null_read_TypeError "prompt")
      | Parsed body =>
          let prompt := prompt_of body in
          if negb (nonempty prompt) then
            Returned (error_response (JStr "Provide a prompt message.") 400)
          else
            let messages := assemble prompt (rawHistory_of body) in
            Returned (call_upstream
              (upstream (mkUpstream ("Bearer " +:+ apiKey) (OPENAI_MODEL env)
                                    (4 # 10) 320 0 messages)))
      end
  end.

End Route.

(** ** The specification's wording, where it is compared with the code *)

Module Spec.
Import JS.

(** Section 4.4: the history sent with a request is "the trailing window
    (at most 12) of prior turns excluding the just-added prompt-duplicate",
    that is, the window of the buffer as it was before the submit. *)
Definition history_excluding_prompt (before : list Panel.Message)
  : list (Panel.Role * string) :=
  Panel.wire (slice_last Panel.MAX_HISTORY before).


(** The number of user turns with content [t] in a buffer. *)
Definition user_turns_with (t : string) (buffer : list Panel.Message) : nat :=
  length (filter (λ m, Panel.role m = Panel.user ∧ Panel.content m = t) buffer).

End Spec.

(** ** Concrete pages and requests *)

Module Scenario.
Import JS Panel.

Definition browser : Platform := mkPlatform true true true true.

(** A browser without speech synthesis. *)
Definition mute_browser : Platform := mkPlatform true true false false.

Definition page : World := initial browser (mkEntropy "0" 1000).

Definition final_result (t : string) : RecognitionEvent :=
  mkRecognitionEvent 0 [mkResult true t].

(** The caller types a request and opens the microphone; the page has
    rendered. *)
Definition typed_and_listening : World :=
  run [ChangeInput "book a tour"; Render; Effect;
       ClickMicrophone None; RecognitionStart; Render; Effect] page.

(** The recognizer finalises the very text that is in the form, and the
    form is submitted before React renders again. *)
Definition same_tick : World :=
  run [RecognitionResultEvent (final_result "book a tour") (mkEntropy "1" 1001);
       SubmitForm (mkEntropy "2" 1002)] typed_and_listening.

(** The caller opens the microphone, types [hello] and sends it; the page
    renders, showing the turn as in flight. *)
Definition in_flight : World :=
  run [ClickMicrophone None; RecognitionStart; Render; Effect;
       ChangeInput "hello"; Render; Effect;
       SubmitForm (mkEntropy "1" 1001); Render; Effect] page.

(** While that turn is in flight the recognizer finalises a phrase. *)
Definition spoken_while_in_flight : World :=
  step (RecognitionResultEvent (final_result "book a tour") (mkEntropy "2" 1002))
       in_flight.

(** The first of the two requests is then answered. *)
Definition first_reply_after_second_turn : World :=
  step (Settle 0 (Response 200 (Parsed (JObj [("reply", JStr "Hello")])))
               (mkEntropy "3" 1003))
       spoken_while_in_flight.

(** In [typed_and_listening], the recognizer has finalised the text that is
    in the form; React has not rendered since. *)
Definition recognizer_submitted : World :=
  step (RecognitionResultEvent (final_result "book a tour") (mkEntropy "1" 1001))
       typed_and_listening.

(** The caller opens the microphone and sends [hi] through the form; the
    reply arrives and the page renders it.  The effect of that render has
    not run yet. *)
Definition reply_rendered : World :=
  run [ClickMicrophone None; RecognitionStart; Render; Effect;
       ChangeInput "hi"; Render; Effect;
       SubmitForm (mkEntropy "1" 1001); Render; Effect;
       Settle 0 (Response 200 (Parsed (JObj [("reply", JStr "Hello")])))
              (mkEntropy "2" 1002);
       Render] page.

(** The recognizer finalises a phrase, which is submitted; then the effect
    of the earlier render runs, and the page renders the new turn. *)
Definition stale_ref : World :=
  run [RecognitionResultEvent (final_result "book a tour") (mkEntropy "3" 1003);
       Effect; Render] reply_rendered.

(** The answer to the phrase arrives before the effect of that last render
    has run. *)
Definition turn_lost : World :=
  step (Settle 0 (Response 200 (Parsed (JObj [("reply", JStr "Sure")])))
               (mkEntropy "4" 1004))
       stale_ref.

(** A turn has been submitted from the first page. *)
Definition submitted : World :=
  run [ChangeInput "hi"; Render; Effect;
       SubmitForm (mkEntropy "1" 1001); Render; Effect] page.

(** The caller has touched the page and sent [hi] with auto voice on, then
    switches auto voice off while the turn is in flight; the page renders. *)
Definition voice_switched_off : World :=
  run [PointerDown; ChangeInput "hi"; Render; Effect;
       SubmitForm (mkEntropy "1" 1001); Render; Effect;
       ClickAutoSpeak; Render; Effect] page.

(** The reply then arrives. *)
Definition toggled_in_flight : World :=
  run [PointerDown; ChangeInput "hi"; Render; Effect;
       SubmitForm (mkEntropy "1" 1001); Render; Effect;
       ClickAutoSpeak; Render; Effect;
       Settle 0 (Response 200 (Parsed (JObj [("reply", JStr "Hello")])))
              (mkEntropy "2" 1002)] page.



Definition configured : Route.Env := Route.mkEnv (Some "sk-test") None None.

Definition upstream_hello : Route.UpstreamRequest → FetchOutcome :=
  λ _, Response 200
         (Parsed (JObj [("choices",
            JArr [JObj [("message", JObj [("content", JStr "Hello")])]])])).

End Scenario.

(** ** The send button, and the vocabulary of the further properties *)

Module View.
Import JS Panel.

(** [disabled={isProcessing || !pendingInput.trim()}] on the send button,
    over the state the page was rendered from. *)
Definition send_disabled (s : State) : bool :=
  isProcessing s || negb (nonempty (trim (pendingInput s))).

(** What a caller does who only uses the form.  React renders
    synchronously at the end of a discrete event such as [submit], so a
    send is the submit followed by the commit of its state updates. *)
Inductive FormAction : Type :=
| Typing (value : string)
| Touch
| SwitchVoice
| Rerender
| Send (e : Entropy)
| Arrive (k : nat) (o : FetchOutcome) (e : Entropy).

Definition form_events (act : FormAction) : list Event :=
  match act with
  | Typing value => [ChangeInput value]
  | Touch => [PointerDown]
  | SwitchVoice => [ClickAutoSpeak]
  | Rerender => [Render]
  | Send e => [SubmitForm e; Render]
  | Arrive k o e => [Settle k o e]
  end.

Definition form_trace (acts : list FormAction) : list Event :=
  concat (map form_events acts).

(** A turn as the panel builds them: its content is its own trim, and a
    user turn is not empty. *)
Definition well_formed_turn (m : Message) : Prop :=
  trim (content m) = content m
  ∧ (role m = user → nonempty (content m) = true).

(** A request as the panel builds them. *)
Definition well_formed_request (r : Request) : Prop :=
  nonempty (prompt r) = true
  ∧ trim (prompt r) = prompt r
  ∧ length (history r) ≤ 12
  ∧ last (history r) = Some (user, prompt r)
  ∧ Forall (λ rc, trim rc.2 = rc.2) (history r).

(** A history entry of a request as the route's [HistoryMessage]. *)
Definition chat_of (rc : Role * string) : Route.ChatMessage :=
  Route.mkChat
    (match rc.1 with
     | user => Route.user
     | assistant => Route.assistant
     end) rc.2.

(** What a trace keeps true: the turns appended so far are well formed, the
    lists the page holds are capped selections of them, and so are the
    requests issued. *)
Definition log_inv (w : World) : Prop :=
  Forall well_formed_turn (created w)
  ∧ buffer_inv w
  ∧ Forall well_formed_request (fetched w).

(** What holds of a page that is used through the form alone: nothing is
    in flight and the flag is down, or one call is in flight and the flag is
    up, in the state and in the handlers. *)
Definition form_inv (w : World) : Prop :=
  (awaiting w = [] ∧ isProcessing (state w) = false)
  ∨ (length (awaiting w) = 1
     ∧ isProcessing (state w) = true
     ∧ isProcessing (rendered w) = true).

(** The fragments of a recognition event the [onresult] loop visits. *)
Definition visited (ev : RecognitionEvent) : list RecognitionResult :=
  drop (resultIndex ev) (results ev).

(** The transcripts of the final, or of the interim, fragments, joined. *)
Definition joined (final : bool) (rs : list RecognitionResult) : string :=
  foldr (λ r acc, if Bool.eqb (isFinal r) final then alternative0 r +:+ acc else acc)
        "" rs.

End View.

(** * Properties *)

(** The two steps of React itself: a render, and the run of a pending
    effect.  Neither touches a field other than [rendered], [messagesRef]
    and [pendingEffect]. *)
Ltac render_case :=
  unfold Panel.render, Panel.runEffect;
  destruct (Panel.pendingEffect _); simpl;
  by destruct (Panel.messagesReplaced _).

Ltac effect_case :=
  unfold Panel.runEffect; by destruct (Panel.pendingEffect _).

(** ** Trimming and slicing *)

Section TrimFacts.
Import JS.

Lemma trimEnd_idem s : trimEnd (trimEnd s) = trimEnd s.
Proof.
  induction s as [|c s IH]; simpl; [done|].
  destruct (trimEnd s) as [|d t] eqn:E.
  - destruct (is_whitespace c) eqn:W; simpl; [done|]. by rewrite W.
  - simpl in *. by rewrite IH.
Qed.

Lemma trimStart_head s :
  match trimStart s with
  | EmptyString => True
  | String c _ => is_whitespace c = false
  end.
Proof.
  induction s as [|c s IH]; simpl; [done|].
  destruct (is_whitespace c) eqn:W; [done|]. simpl. done.
Qed.

Lemma trim_head s :
  match trim s with
  | EmptyString => True
  | String c _ => is_whitespace c = false
  end.
Proof.
  unfold trim. pose proof (trimStart_head s) as H.
  destruct (trimStart s) as [|c t]; simpl; [done|].
  destruct (trimEnd t); [by rewrite H|done].
Qed.

Lemma trimStart_fixed s :
  match s with
  | EmptyString => True
  | String c _ => is_whitespace c = false
  end → trimStart s = s.
Proof. destruct s as [|c t]; simpl; [done|]. by intros ->. Qed.

(** Trimming is idempotent: a trimmed text is its own trim. *)
Lemma trim_idem s : trim (trim s) = trim s.
Proof.
  unfold trim at 1. rewrite (trimStart_fixed (trim s)) by apply trim_head.
  unfold trim. apply trimEnd_idem.
Qed.

Lemma nonempty_true s : nonempty s = true ↔ s ≠ "".
Proof. destruct s; simpl; split; congruence. Qed.

End TrimFacts.

Section SliceFacts.
Import JS.
Context {A : Type}.
Implicit Types (l k : list A) (n : nat).

Lemma slice_last_length n l : length (slice_last n l) = min n (length l).
Proof. unfold slice_last. rewrite length_drop. lia. Qed.

Lemma slice_last_le n l : length (slice_last n l) ≤ n.
Proof. rewrite slice_last_length. lia. Qed.

Lemma slice_last_short n l : length l ≤ n → slice_last n l = l.
Proof.
  intros H. unfold slice_last. by replace (length l - n) with 0 by lia.
Qed.

Lemma slice_last_suffix n l : slice_last n l `suffix_of` l.
Proof. apply suffix_drop. Qed.

(** Appending to the kept window and cutting again is the same as cutting
    the whole sequence once. *)
Lemma slice_last_snoc n l x :
  1 ≤ n → slice_last n (slice_last n l ++ [x]) = slice_last n (l ++ [x]).
Proof.
  intros Hn. unfold slice_last.
  rewrite !length_app, length_drop. simpl.
  destruct (decide (length l ≤ n)) as [Hle|Hgt].
  - replace (length l - n) with 0 by lia. rewrite drop_0.
    f_equal. lia.
  - rewrite (drop_app_le (drop _ l)) by (rewrite length_drop; lia).
    rewrite (drop_app_le l) by lia.
    rewrite drop_drop. f_equal. f_equal. lia.
Qed.

Lemma slice_last_last n l x : 1 ≤ n → last (slice_last n (l ++ [x])) = Some x.
Proof.
  intros Hn. unfold slice_last. rewrite length_app. simpl.
  rewrite drop_app_le by lia. apply last_snoc.
Qed.

(** A tail no longer than the window survives the cut whole. *)
Lemma slice_last_app_r n l k :
  length k ≤ n → ∃ l', slice_last n (l ++ k) = l' ++ k ∧ l' `suffix_of` l.
Proof.
  intros Hk. unfold slice_last. rewrite length_app.
  rewrite drop_app_le by lia.
  eexists; split; [done|]. apply suffix_drop.
Qed.

End SliceFacts.

(** ** The handlers, case by case *)

Section Handlers.
Import JS Panel.

Lemma handleSend_cases ip a input e w :
  handleSend ip a input e w = w
  ∨ (nonempty (trim input) = true ∧ ip = false
     ∧ let u := createMessage user (trim input) e in
       let h := slice_last MAX_HISTORY (messagesRef w ++ [u]) in
       handleSend ip a input e w =
       mkWorld (mkState h (status (state w)) "" "" None true (autoSpeak (state w)))
               (rendered w) (recognitionRef w) (speechAllowedRef w) h (platform w)
               (speechQueue w) (fetched w ++ [mkRequest (trim input) (wire h)])
               (awaiting w ++ [mkSuspended (mkRequest (trim input) (wire h)) a])
               (created w ++ [u]) (pendingEffect w) true).
Proof.
  unfold handleSend.
  destruct (nonempty (trim input)); simpl; [|by left].
  destruct ip; simpl; [by left|]. right. done.
Qed.

Lemma handleSend_created ip a input e w :
  created w `prefix_of` created (handleSend ip a input e w).
Proof.
  destruct (handleSend_cases ip a input e w) as [->|(_ & _ & ->)]; [done|].
  simpl. by apply prefix_app_r.
Qed.

(** With the gate closed [synthSpeak] returns at once. *)
Lemma synthSpeak_silent a t w :
  speechAllowedRef w = false ∨ a = false → synthSpeak a t w = inr w.
Proof.
  intros [H| ->]; unfold synthSpeak.
  - rewrite H. simpl. by rewrite orb_true_r.
  - simpl. by rewrite orb_true_r.
Qed.

(** When [synthSpeak] returns, only the speech queue can have changed. *)
Lemma synthSpeak_fields a t w w' :
  synthSpeak a t w = inr w' →
  state w' = state w
  ∧ rendered w' = rendered w
  ∧ recognitionRef w' = recognitionRef w
  ∧ speechAllowedRef w' = speechAllowedRef w
  ∧ messagesRef w' = messagesRef w
  ∧ platform w' = platform w
  ∧ fetched w' = fetched w
  ∧ awaiting w' = awaiting w
  ∧ created w' = created w
  ∧ pendingEffect w' = pendingEffect w
  ∧ (speechAllowedRef w = false → speechQueue w' = speechQueue w).
Proof.
  unfold synthSpeak.
  destruct (window_defined (platform w)); simpl; [|by intros [= <-]].
  destruct (speechAllowedRef w) eqn:Hallowed; simpl; [|by intros [= <-]].
  destruct a; simpl; [|by intros [= <-]].
  destruct (utterance_defined (platform w)); simpl; [|done].
  destruct (speechSynthesis_defined (platform w)); simpl; [|done].
  by intros [= <-].
Qed.

Lemma synthSpeak_throws_open a t w err :
  synthSpeak a t w = inl err → speechAllowedRef w = true.
Proof.
  unfold synthSpeak.
  destruct (window_defined (platform w)); simpl; [|done].
  by destruct (speechAllowedRef w).
Qed.

(** Whether [synthSpeak] throws, and the queue it leaves, depend on the
    world only through the platform, the interaction flag and the queue. *)
Lemma synthSpeak_transfer a t w w1 :
  platform w1 = platform w →
  speechAllowedRef w1 = speechAllowedRef w →
  speechQueue w1 = speechQueue w →
  match synthSpeak a t w1, synthSpeak a t w with
  | inl err1, inl err => err1 = err
  | inr v1, inr v => speechQueue v1 = speechQueue v
  | _, _ => False
  end.
Proof.
  intros Hp Hs Hq. unfold synthSpeak. rewrite Hp, Hs.
  destruct (_ || _); [done|].
  destruct (negb (utterance_defined _)); [done|].
  by destruct (negb (speechSynthesis_defined _)).
Qed.

(** On an exception before the reply is read, the [catch] records its
    message and [finally] clears the flag; nothing else moves. *)
Lemma handleSend_resume_failed a o e w err :
  read_reply o = inl err →
  handleSend_resume a o e w =
  setIsProcessing false
    (setError (Some (message_or "Failed to reach the server." err)) w).
Proof. intros H. unfold handleSend_resume, handleSend_try. by rewrite H. Qed.

(** With a reply, the assistant turn is appended, then [synthSpeak] runs;
    its exception, if any, is recorded on top of the appended turn. *)
Lemma handleSend_resume_replied a o e w reply :
  read_reply o = inr reply →
  let m := createMessage assistant (trim reply) e in
  let h := slice_last MAX_HISTORY (messagesRef w ++ [m]) in
  let w1 := setMessages h (set_messagesRef h (note_created m w)) in
  handleSend_resume a o e w =
  match synthSpeak a (trim reply) w1 with
  | inr w' => setIsProcessing false w'
  | inl err =>
      setIsProcessing false
        (setError (Some (message_or "Failed to reach the server." err)) w1)
  end.
Proof.
  intros H m h w1. unfold handleSend_resume, handleSend_try. rewrite H.
  subst m h w1. cbv zeta. cbn [content createMessage].
  by destruct (synthSpeak _ _ _).
Qed.

(** What [handleSend] leaves when its request settles, field by field. *)
Lemma handleSend_resume_frame a o e w :
  let w' := handleSend_resume a o e w in
  (fetched w' = fetched w
   ∧ awaiting w' = awaiting w
   ∧ rendered w' = rendered w
   ∧ recognitionRef w' = recognitionRef w
   ∧ platform w' = platform w
   ∧ speechAllowedRef w' = speechAllowedRef w
   ∧ pendingEffect w' = pendingEffect w)
  ∧ (status (state w') = status (state w)
     ∧ transcript (state w') = transcript (state w)
     ∧ pendingInput (state w') = pendingInput (state w)
     ∧ autoSpeak (state w') = autoSpeak (state w)
     ∧ isProcessing (state w') = false)
  ∧ (speechAllowedRef w = false → speechQueue w' = speechQueue w)
  ∧ ((∃ err, read_reply o = inl err
        ∧ created w' = created w
        ∧ messagesRef w' = messagesRef w
        ∧ messages (state w') = messages (state w))
     ∨ (∃ reply, read_reply o = inr reply
        ∧ created w' = created w ++ [createMessage assistant (trim reply) e]
        ∧ messagesRef w'
          = slice_last MAX_HISTORY
              (messagesRef w ++ [createMessage assistant (trim reply) e])
        ∧ messages (state w') = messagesRef w')).
Proof.
  intros w'. subst w'.
  destruct (read_reply o) as [err|reply] eqn:Hr.
  { rewrite (handleSend_resume_failed a o e w err Hr).
    repeat split; try done. left. by exists err. }
  rewrite (handleSend_resume_replied a o e w reply Hr).
  set (m := createMessage assistant (trim reply) e).
  set (h := slice_last MAX_HISTORY (messagesRef w ++ [m])).
  set (w1 := setMessages h (set_messagesRef h (note_created m w))).
  destruct (synthSpeak a (trim reply) w1) as [err|ws] eqn:Hs.
  - split; [done|]. split; [done|]. split.
    + intros Hclosed. pose proof (synthSpeak_throws_open _ _ _ _ Hs) as Hopen.
      simpl in Hopen. congruence.
    + right. exists reply. done.
  - destruct (synthSpeak_fields _ _ _ _ Hs)
      as (Hst & Hre & Hrc & Hsa & Hmr & Hpl & Hf & Haw & Hc & Hpe & Hq).
    simpl. rewrite Hst, Hre, Hrc, Hsa, Hmr, Hpl, Hf, Haw, Hc, Hpe. simpl.
    split; [done|]. split; [done|]. split; [exact Hq|].
    right. exists reply. done.
Qed.

Lemma handleSend_resume_created a o e w :
  created w `prefix_of` created (handleSend_resume a o e w).
Proof.
  destruct (handleSend_resume_frame a o e w)
    as (_ & _ & _ & [(err & _ & -> & _)|(reply & _ & -> & _)]); [done|].
  by apply prefix_app_r.
Qed.

Lemma handleToggleRecording_fields t w :
  messages (state (handleToggleRecording t w)) = messages (state w)
  ∧ messagesRef (handleToggleRecording t w) = messagesRef w
  ∧ created (handleToggleRecording t w) = created w
  ∧ pendingEffect (handleToggleRecording t w) = pendingEffect w.
Proof.
  unfold handleToggleRecording, ensureRecognition.
  destruct (window_defined _); simpl; [|done].
  destruct (recognitionRef w); simpl.
  - destruct (status (rendered w)); simpl; try done; by destruct t.
  - destruct (recognition_supported _); simpl; [|done].
    destruct (status (rendered w)); simpl; try done; by destruct t.
Qed.

Lemma runEffect_created w : created (runEffect w) = created w.
Proof. unfold runEffect. by destruct (pendingEffect w). Qed.

Lemma render_created w : created (render w) = created w.
Proof.
  unfold render. destruct (messagesReplaced _); simpl; apply runEffect_created.
Qed.

Lemma step_created ev w : created w `prefix_of` created (step ev w).
Proof.
  destruct ev as [| | |v|e|t| |err| |ev e|k o e|]; simpl; try done.
  - by rewrite render_created.
  - apply handleSend_created.
  - by destruct (handleToggleRecording_fields t w) as (_ & _ & -> & _).
  - by destruct (recognitionRef w).
  - by destruct (recognitionRef w).
  - by destruct (recognitionRef w).
  - destruct (recognitionRef w) as [r|]; [|done].
    unfold onresult. destruct (gather _ _ _) as [f i].
    destruct (nonempty f); [|done].
    apply (handleSend_created _ _ _ _ (setTranscript "" w)).
  - destruct (awaiting w !! k); [|done].
    apply (handleSend_resume_created _ _ _ (set_awaiting _ w)).
  - by rewrite runEffect_created.
Qed.

Lemma run_created evs w : created w `prefix_of` created (run evs w).
Proof.
  revert w. induction evs as [|ev evs IH]; intros w; simpl; [done|].
  etrans; [apply (step_created ev)|apply IH].
Qed.

Lemma run_app evs evs' w : run (evs ++ evs') w = run evs' (run evs w).
Proof. revert w. induction evs as [|ev evs IH]; intros w; simpl; auto. Qed.

End Handlers.

(** ** The history buffer *)

Section Buffer.
Import JS Panel.

Lemma held_unchanged w w' l :
  messages (state w') = messages (state w) →
  messages (rendered w') = messages (rendered w) →
  messagesRef w' = messagesRef w →
  pendingEffect w' = pendingEffect w →
  held w' l → held w l.
Proof. unfold held. by intros -> -> -> ->. Qed.

Lemma handleToggleRecording_rendered t w :
  rendered (handleToggleRecording t w) = rendered w.
Proof.
  unfold handleToggleRecording, ensureRecognition.
  destruct (window_defined _); simpl; [|done].
  destruct (recognitionRef w); simpl.
  - destruct (status (rendered w)); simpl; try done; by destruct t.
  - destruct (recognition_supported _); simpl; [|done].
    destruct (status (rendered w)); simpl; try done; by destruct t.
Qed.

(** A list the page holds after [handleSend] was held before, or is the
    buffer the call built: the ref's turns and the new one, cut to the cap. *)
Lemma handleSend_held ip a input e w l :
  held (handleSend ip a input e w) l →
  held w l
  ∨ (created (handleSend ip a input e w)
       = created w ++ [createMessage user (trim input) e]
     ∧ l = slice_last MAX_HISTORY
             (messagesRef w ++ [createMessage user (trim input) e])).
Proof.
  destruct (handleSend_cases ip a input e w) as [->|(_ & _ & ->)]; [by left|].
  unfold held. simpl. intros [->|[->|[->|H]]]; auto.
Qed.

Lemma handleSend_resume_held a o e w l :
  held (handleSend_resume a o e w) l →
  held w l
  ∨ ∃ reply,
      created (handleSend_resume a o e w)
        = created w ++ [createMessage assistant (trim reply) e]
      ∧ l = slice_last MAX_HISTORY
              (messagesRef w ++ [createMessage assistant (trim reply) e]).
Proof.
  destruct (handleSend_resume_frame a o e w)
    as ((_ & _ & Hre & _ & _ & _ & Hpe) & _ & _
        & [(err & _ & _ & Hmr & Hm)|(reply & _ & Hc & Hmr & Hm)]).
  - intros H. left. revert H. apply held_unchanged; by rewrite ?Hre.
  - unfold held. rewrite Hre, Hpe, Hm, Hmr.
    intros [->|[->|[->|H]]]; eauto 10.
Qed.

Lemma runEffect_held w l : held (runEffect w) l → held w l.
Proof.
  unfold runEffect, held.
  destruct (pendingEffect w) as [ms|] eqn:Hp; [|by rewrite Hp].
  simpl. intros [->|[->|[->|H]]]; auto. done.
Qed.

Lemma render_held w l : held (render w) l → held w l.
Proof.
  intros H. apply runEffect_held. revert H. unfold render, held.
  destruct (messagesReplaced _); simpl; intros [->|[->|[->|H]]]; auto.
  injection H as <-. auto.
Qed.

(** Every step keeps the lists the page holds, or replaces one by the ref's
    turns and a turn appended in this step, cut to the cap. *)
Lemma step_held ev w l :
  held (step ev w) l →
  held w l
  ∨ ∃ m, created (step ev w) = created w ++ [m]
         ∧ l = slice_last MAX_HISTORY (messagesRef w ++ [m]).
Proof.
  destruct ev as [| | |v|e|t| |err| |ev e|k o e|]; simpl; auto.
  - intros H. left. by apply render_held.
  - intros H. destruct (handleSend_held _ _ _ _ _ _ H) as [?|[? ?]]; eauto.
  - destruct (handleToggleRecording_fields t w) as (Hm & Hr & _ & Hp).
    intros H. left. revert H.
    apply held_unchanged; by rewrite ?handleToggleRecording_rendered.
  - destruct (recognitionRef w); auto.
  - destruct (recognitionRef w); auto.
  - destruct (recognitionRef w); auto.
  - destruct (recognitionRef w) as [r|]; [|by auto].
    unfold onresult. destruct (gather _ _ _) as [f i].
    destruct (nonempty f); [|by auto].
    intros H.
    destruct (handleSend_held _ _ _ _ (setTranscript "" w) _ H) as [?|[? ?]];
      eauto.
  - destruct (awaiting w !! k); [|by auto].
    intros H.
    destruct (handleSend_resume_held _ _ _ (set_awaiting _ w) _ H)
      as [?|(reply & ? & ?)]; eauto.
  - intros H. left. by apply runEffect_held.
Qed.

Lemma slice_last_snoc_sublist {A} n (l c : list A) x :
  l `sublist_of` c → slice_last n (l ++ [x]) `sublist_of` c ++ [x].
Proof.
  intros H. unfold slice_last.
  etrans; [apply sublist_drop|]. by apply sublist_app.
Qed.

Lemma step_buffer_inv ev w : buffer_inv w → buffer_inv (step ev w).
Proof.
  intros Hw l Hl.
  destruct (step_held ev w l Hl) as [H|(m & Hc & ->)].
  - destruct (Hw l H) as [Hlen Hsub]. split; [done|].
    destruct (step_created ev w) as [k ->]. by apply sublist_inserts_r.
  - split; [apply slice_last_le|].
    rewrite Hc. apply slice_last_snoc_sublist.
    apply (Hw (messagesRef w)). unfold held. auto.
Qed.

Lemma run_buffer_inv evs w : buffer_inv w → buffer_inv (run evs w).
Proof.
  revert w. induction evs as [|ev evs IH]; intros w Hw; simpl; [done|].
  apply IH. by apply step_buffer_inv.
Qed.

Lemma initial_buffer_inv p e : buffer_inv (initial p e).
Proof.
  intros l. unfold held. simpl.
  intros [->|[->|[->|H]]]; try done; split; try done;
    unfold MAX_HISTORY; simpl; lia.
Qed.

(** C1, evaluated where the code departs from it.  The caller sends [hi]
    through the form with the microphone open; the reply [Hello] arrives.
    The recognizer finalises [book a tour] after the page has rendered the
    reply and before the effect of that render has run: the submit writes
    the new turn into [messagesRef], and the effect, running later, writes
    the list of its own render back over it.  When the answer [Sure] then
    arrives before the effect of the next render has run, it is appended to
    the turns of that older list.  The buffer is left with four turns of
    the five appended: the user turn [book a tour] is gone though the cap
    was never reached, the buffer is not the last turns appended, and
    running the remaining effects does not bring the turn back. *)
Theorem stale_effect_drops_a_turn :
  map content (messagesRef Scenario.reply_rendered) = [greeting; "hi"; "Hello"]
  ∧ (map content <$> pendingEffect Scenario.reply_rendered)
    = Some [greeting; "hi"; "Hello"]
  ∧ map content (messages (state Scenario.stale_ref))
    = [greeting; "hi"; "Hello"; "book a tour"]
  ∧ map content (messagesRef Scenario.stale_ref) = [greeting; "hi"; "Hello"]
  ∧ map content (created Scenario.turn_lost)
    = [greeting; "hi"; "Hello"; "book a tour"; "Sure"]
  ∧ map prompt (fetched Scenario.turn_lost) = ["hi"; "book a tour"]
  ∧ map content (messages (state Scenario.turn_lost))
    = [greeting; "hi"; "Hello"; "Sure"]
  ∧ length (created Scenario.turn_lost) < MAX_HISTORY
  ∧ messages (state Scenario.turn_lost)
    ≠ slice_last MAX_HISTORY (created Scenario.turn_lost)
  ∧ map content (messages (state (run [Effect; Render; Effect] Scenario.turn_lost)))
    = [greeting; "hi"; "Hello"; "Sure"].
Proof.
  repeat split; try reflexivity.
  - vm_compute. lia.
  - intros H. apply (f_equal length) in H. vm_compute in H. discriminate.
Qed.

(** X17.  Over every trace of events, whatever their order, the buffer the
    page shows and the buffer [handleSend] reads never hold more than 12
    turns, and each holds turns the page appended, without repetition of
    an appended turn and in the order in which they were appended. *)
Theorem buffer_is_capped_selection (p : Platform) (e : Entropy) (evs : list Event) :
  let w := run evs (initial p e) in
  length (messages (state w)) ≤ 12
  ∧ length (messagesRef w) ≤ 12
  ∧ messages (state w) `sublist_of` created w
  ∧ messagesRef w `sublist_of` created w.
Proof.
  intros w.
  pose proof (run_buffer_inv evs _ (initial_buffer_inv p e)) as Hw. fold w in Hw.
  destruct (Hw (messages (state w))) as [? ?]; [unfold held; auto|].
  destruct (Hw (messagesRef w)) as [? ?]; [unfold held; auto|].
  done.
Qed.

End Buffer.

(** ** Submitting a turn *)

Section Submit.
Import JS Panel.

Lemma slice_last_snoc_S {A} n (l : list A) x :
  slice_last (S n) (l ++ [x]) = slice_last n l ++ [x].
Proof.
  unfold slice_last. rewrite length_app. simpl.
  rewrite drop_app_le by lia. do 2 f_equal. lia.
Qed.

Lemma wire_app h k : wire (h ++ k) = wire h ++ wire k.
Proof. apply map_app. Qed.

(** A text that trims to nothing is dropped. *)
Lemma handleSend_blank ip a input e w :
  nonempty (trim input) = false → handleSend ip a input e w = w.
Proof. intros H. unfold handleSend. by rewrite H. Qed.

(** A [handleSend] that closed over [isProcessing = true] drops its input. *)
Lemma handleSend_busy a input e w : handleSend true a input e w = w.
Proof. unfold handleSend. by rewrite orb_true_r. Qed.

(** Once the page has rendered a turn as in flight, the form is inert. *)
Lemma handleSubmit_while_rendered_in_flight e w :
  isProcessing (rendered w) = true → handleSubmit e w = w.
Proof. intros H. unfold handleSubmit. rewrite H. apply handleSend_busy. Qed.

(** What a submit that goes through leaves behind. *)
Lemma handleSend_proceeds a input e w :
  nonempty (trim input) = true →
  let u := createMessage user (trim input) e in
  let h := slice_last MAX_HISTORY (messagesRef w ++ [u]) in
  handleSend false a input e w =
  mkWorld (mkState h (status (state w)) "" "" None true (autoSpeak (state w)))
          (rendered w) (recognitionRef w) (speechAllowedRef w) h (platform w)
          (speechQueue w) (fetched w ++ [mkRequest (trim input) (wire h)])
          (awaiting w ++ [mkSuspended (mkRequest (trim input) (wire h)) a])
          (created w ++ [u]) (pendingEffect w) true.
Proof. intros H. unfold handleSend. by rewrite H. Qed.

(** X18.  A submit that passes the guard appends exactly one turn; it is
    the last entry of the buffer when the request leaves, a user turn whose
    content is the outgoing prompt, and it is also the last entry of the
    history the request carries. *)
Theorem submit_appends_the_prompt (a : bool) (input : string) (e : Entropy) (w : World) :
  nonempty (trim input) = true →
  let w' := handleSend false a input e w in
  let u := createMessage user (trim input) e in
  created w' = created w ++ [u]
  ∧ last (messagesRef w') = Some u
  ∧ last (messages (state w')) = Some u
  ∧ role u = user
  ∧ ∃ r, fetched w' = fetched w ++ [r]
         ∧ prompt r = content u
         ∧ last (history r) = Some (user, prompt r).
Proof.
  intros H w' u. subst w'. rewrite (handleSend_proceeds a input e w H). simpl.
  fold u. unfold MAX_HISTORY.
  repeat split; try apply slice_last_last; try lia.
  eexists; repeat split. simpl.
  rewrite slice_last_snoc_S, wire_app. simpl. apply last_snoc.
Qed.

Lemma submit_appends_the_prompt_witness :
  nonempty (trim " book a tour ") = true
  ∧ last (messagesRef (handleSend false true " book a tour " (mkEntropy "1" 1001)
                       Scenario.page))
  = Some (createMessage user "book a tour" (mkEntropy "1" 1001)).
Proof.
  split; [reflexivity|].
  exact (proj1 (proj2 (submit_appends_the_prompt true " book a tour "
                         (mkEntropy "1" 1001) Scenario.page eq_refl))).
Defined.

(** C2, evaluated where the code departs from it.  The form holds [book a
    tour] and the microphone is open.  The recognizer finalises [book a
    tour]: its submit appends the user turn, issues the request and sets
    [isProcessing].  The form is submitted before React renders again: the
    form's [handleSend] is still the one of the last render, whose
    [isProcessing] is [false] and whose [pendingInput] is [book a tour], and
    nothing compares the text with the turn just appended.  The buffer ends
    with two user turns of that content, and two requests have left. *)
Theorem same_tick_submit_appends_twice :
  isProcessing (state Scenario.recognizer_submitted) = true
  ∧ isProcessing (rendered Scenario.recognizer_submitted) = false
  ∧ pendingInput (rendered Scenario.recognizer_submitted) = "book a tour"
  ∧ map content (messagesRef Scenario.recognizer_submitted)
    = [greeting; "book a tour"]
  ∧ map prompt (sent <$> awaiting Scenario.recognizer_submitted) = ["book a tour"]
  ∧ Scenario.same_tick
    = step (SubmitForm (mkEntropy "2" 1002)) Scenario.recognizer_submitted
  ∧ map (λ m, (role m, content m)) (messagesRef Scenario.same_tick)
    = [(assistant, greeting); (user, "book a tour"); (user, "book a tour")]
  ∧ messages (state Scenario.same_tick) = messagesRef Scenario.same_tick
  ∧ Spec.user_turns_with "book a tour" (messagesRef Scenario.same_tick) = 2
  ∧ map prompt (fetched Scenario.same_tick) = ["book a tour"; "book a tour"].
Proof. vm_compute. repeat split. Qed.

(** C3, evaluated where the code departs from it.  A turn is in flight and
    the page has rendered it so ([isProcessing] is [true] in the state and in
    every handler of that render); the recognizer, built in an earlier
    render, then finalises a phrase.  Its [handleSend] still sees
    [isProcessing = false]: a second user turn is appended and a second
    request leaves while the first is pending. *)
Theorem stale_guard_admits_second_submit :
  isProcessing (state Scenario.in_flight) = true
  ∧ isProcessing (rendered Scenario.in_flight) = true
  ∧ map prompt (sent <$> awaiting Scenario.in_flight) = ["hello"]
  ∧ map content (messagesRef Scenario.in_flight) = [greeting; "hello"]
  ∧ map content (messagesRef Scenario.spoken_while_in_flight)
    = [greeting; "hello"; "book a tour"]
  ∧ map prompt (fetched Scenario.spoken_while_in_flight) = ["hello"; "book a tour"]
  ∧ map prompt (sent <$> awaiting Scenario.spoken_while_in_flight)
    = ["hello"; "book a tour"].
Proof. vm_compute. repeat split. Qed.

End Submit.

(** ** Settling a turn *)

Section Settle.
Import JS Panel.

Lemma render_state w : state (render w) = state w.
Proof.
  unfold render, runEffect.
  destruct (pendingEffect w); simpl; by destruct (messagesReplaced _).
Qed.

Lemma render_rendered w : rendered (render w) = state w.
Proof.
  unfold render, runEffect.
  destruct (pendingEffect w); simpl; by destruct (messagesReplaced _).
Qed.





(** C5, evaluated where the code departs from it.  The turn [hello] is in
    flight when the recognizer, through the [handleSend] of an earlier
    render, submits [book a tour] (see C3).  The reply to [hello] then
    arrives: it is appended at the end of the buffer, after [book a tour]
    and not after the turn it answers, and the in-flight flag is cleared
    although the second request is still pending. *)
Theorem reply_lands_after_a_later_turn :
  map (λ m, (role m, content m)) (messagesRef Scenario.spoken_while_in_flight)
  = [(assistant, greeting); (user, "hello"); (user, "book a tour")]
  ∧ map prompt (sent <$> awaiting Scenario.spoken_while_in_flight)
    = ["hello"; "book a tour"]
  ∧ map (λ m, (role m, content m))
        (messages (state Scenario.first_reply_after_second_turn))
    = [(assistant, greeting); (user, "hello"); (user, "book a tour");
       (assistant, "Hello")]
  ∧ map prompt (sent <$> awaiting Scenario.first_reply_after_second_turn)
    = ["book a tour"]
  ∧ isProcessing (state Scenario.first_reply_after_second_turn) = false.
Proof. vm_compute. repeat split. Qed.

(** C10.  However the request settles, [handleSend] ends by clearing the
    in-flight flag, and the handlers of the next render see it cleared: the
    form submits again.  It never writes the pending input or the interim
    transcript, so what the submit cleared stays cleared, also on failure. *)
Theorem every_completion_clears_in_flight
    (a : bool) (o : FetchOutcome) (e : Entropy) (w : World) :
  let w' := handleSend_resume a o e w in
  isProcessing (state w') = false
  ∧ pendingInput (state w') = pendingInput (state w)
  ∧ transcript (state w') = transcript (state w)
  ∧ isProcessing (rendered (render w')) = false
  ∧ (∀ e', handleSubmit e' (render w') =
           handleSend false (autoSpeak (state w')) (pendingInput (state w')) e' (render w'))
  ∧ (∀ input e0 w0,
       nonempty (trim input) = true →
       w = handleSend false a input e0 w0 →
       pendingInput (state w') = "" ∧ transcript (state w') = "").
Proof.
  intros w'.
  destruct (handleSend_resume_frame a o e w)
    as (_ & (_ & Ht & Hi & _ & Hp) & _). fold w' in Ht, Hi, Hp.
  pose proof (render_rendered w') as Hr.
  repeat split; try done.
  - by rewrite Hr.
  - intros e'. unfold handleSubmit. by rewrite Hr, Hp.
  - rewrite Hi. subst w. by rewrite handleSend_proceeds.
  - rewrite Ht. subst w. by rewrite handleSend_proceeds.
Qed.

Lemma every_completion_clears_in_flight_witness :
  let w := handleSend false true "hi" (mkEntropy "1" 1001) Scenario.page in
  let w' := handleSend_resume true (Rejected NotAnError) (mkEntropy "2" 1002) w in
  isProcessing (state w) = true
  ∧ isProcessing (state w') = false
  ∧ pendingInput (state w') = "" ∧ transcript (state w') = "".
Proof.
  pose proof (every_completion_clears_in_flight true (Rejected NotAnError)
                (mkEntropy "2" 1002)
                (handleSend false true "hi" (mkEntropy "1" 1001) Scenario.page))
    as (H1 & _ & _ & _ & _ & H6).
  split; [reflexivity|]. split; [exact H1|].
  exact (H6 "hi" (mkEntropy "1" 1001) Scenario.page eq_refl eq_refl).
Defined.

End Settle.

(** ** Speaking *)

Section Speech.
Import JS Panel.

Lemma handleSend_resume_speech a o e w :
  speechAllowedRef (handleSend_resume a o e w) = speechAllowedRef w
  ∧ (speechAllowedRef w = false →
     speechQueue (handleSend_resume a o e w) = speechQueue w).
Proof.
  by destruct (handleSend_resume_frame a o e w)
    as ((_ & _ & _ & _ & _ & Hs & _) & _ & Hq & _).
Qed.

(** C9, evaluated where the code departs from it.  The caller has touched
    the page and sends [hi] with auto voice on, then switches auto voice
    off; the page renders, so the flag is off in the state and in every
    callback of that render.  The reply arrives: the [handleSend] that
    awaits it kept the [synthSpeak] of the render of the submit, whose
    [autoSpeak] is still on, and the reply is spoken. *)
Theorem reply_spoken_with_auto_voice_off :
  speechAllowedRef Scenario.voice_switched_off = true
  ∧ autoSpeak (state Scenario.voice_switched_off) = false
  ∧ autoSpeak (rendered Scenario.voice_switched_off) = false
  ∧ speechQueue Scenario.voice_switched_off = []
  ∧ Scenario.toggled_in_flight
    = step (Settle 0 (Response 200 (Parsed (JObj [("reply", JStr "Hello")])))
                   (mkEntropy "2" 1002))
           Scenario.voice_switched_off
  ∧ autoSpeak (state Scenario.toggled_in_flight) = false
  ∧ map text (speechQueue Scenario.toggled_in_flight) = ["Hello"].
Proof. vm_compute. repeat split. Qed.

(** X19.  What [synthSpeak] does, in terms of the [autoSpeak] value its
    callback closed over.  Without [window], before the first pointer
    interaction, or with that value off, it returns and nothing changes.
    Otherwise, in a browser with speech synthesis, it empties the speech
    queue and enqueues one utterance for the text (rate 1, pitch 1.05,
    en-US), so that only the new utterance remains; where
    [SpeechSynthesisUtterance] or [window.speechSynthesis] is missing it
    throws, and nothing has been queued. *)
Theorem synthSpeak_outcomes (a : bool) (txt : string) (w : World) :
  (window_defined (platform w) = false ∨ speechAllowedRef w = false ∨ a = false →
   synthSpeak a txt w = inr w)
  ∧ (window_defined (platform w) = true →
     speechAllowedRef w = true →
     a = true →
     (utterance_defined (platform w) = true →
      speechSynthesis_defined (platform w) = true →
      synthSpeak a txt w
      = inr (speechSynthesis_speak (mkUtterance txt 1 (105 # 100) "en-US")
                                   (speechSynthesis_cancel w))
      ∧ ∃ w', synthSpeak a txt w = inr w'
              ∧ speechQueue w' = [mkUtterance txt 1 (105 # 100) "en-US"])
     ∧ (utterance_defined (platform w) = false →
        synthSpeak a txt w = inl utterance_ReferenceError)
     ∧ (utterance_defined (platform w) = true →
        speechSynthesis_defined (platform w) = false →
        synthSpeak a txt w = inl speechSynthesis_TypeError)).
Proof.
  split.
  - intros [H|H]; [|by apply synthSpeak_silent].
    unfold synthSpeak. by rewrite H.
  - intros Hw Hs ->. unfold synthSpeak. rewrite Hw, Hs. simpl.
    split; [|split].
    + intros -> ->. simpl. split; [done|]. by eexists.
    + by intros ->.
    + by intros -> ->.
Qed.

Lemma synthSpeak_outcomes_witness :
  let w := set_speechQueue [mkUtterance "old" 1 (105 # 100) "en-US"]
             (step PointerDown Scenario.page) in
  synthSpeak true "Hello" Scenario.page = inr Scenario.page
  ∧ synthSpeak false "Hello" w = inr w
  ∧ ∃ w', synthSpeak true "Hello" w = inr w'
          ∧ speechQueue w' = [mkUtterance "Hello" 1 (105 # 100) "en-US"].
Proof.
  split; [|split].
  - exact (proj1 (synthSpeak_outcomes true "Hello" Scenario.page)
             (or_intror (or_introl eq_refl))).
  - exact (proj1 (synthSpeak_outcomes false "Hello"
                    (set_speechQueue [mkUtterance "old" 1 (105 # 100) "en-US"]
                       (step PointerDown Scenario.page)))
             (or_intror (or_intror eq_refl))).
  - exact (proj2 (proj1 (proj2 (synthSpeak_outcomes true "Hello"
                    (set_speechQueue [mkUtterance "old" 1 (105 # 100) "en-US"]
                       (step PointerDown Scenario.page)))
                    eq_refl eq_refl eq_refl) eq_refl eq_refl)).
Defined.

(** Nothing is ever spoken before the first pointer interaction. *)
Lemma silent_until_first_interaction p e evs :
  Forall (λ ev, ev ≠ PointerDown) evs →
  speechAllowedRef (run evs (initial p e)) = false
  ∧ speechQueue (run evs (initial p e)) = [].
Proof.
  assert (Hstep : ∀ ev w, ev ≠ PointerDown →
            speechAllowedRef w = false ∧ speechQueue w = [] →
            speechAllowedRef (step ev w) = false ∧ speechQueue (step ev w) = []).
  { intros ev w Hne [Hs Hq].
    assert (Hsend : ∀ ip a input e w', speechAllowedRef w' = false → speechQueue w' = [] →
              speechAllowedRef (handleSend ip a input e w') = false
              ∧ speechQueue (handleSend ip a input e w') = []).
    { intros ip a input e0 w' H1 H2.
      by destruct (handleSend_cases ip a input e0 w') as [->|(_ & _ & ->)]. }
    destruct ev as [| | |v|e0|t| |err| |ev e0|k o e0|]; simpl; try done.
    - unfold render, runEffect.
      destruct (pendingEffect w); simpl; by destruct (messagesReplaced _).
    - by apply Hsend.
    - unfold handleToggleRecording, ensureRecognition.
      destruct (window_defined _); simpl; [|done].
      destruct (recognitionRef w); simpl.
      + destruct (status (rendered w)); simpl; try done; by destruct t.
      + destruct (recognition_supported _); simpl; [|done].
        destruct (status (rendered w)); simpl; try done; by destruct t.
    - by destruct (recognitionRef w).
    - by destruct (recognitionRef w).
    - by destruct (recognitionRef w).
    - destruct (recognitionRef w) as [r|]; [|done].
      unfold onresult. destruct (gather _ _ _) as [f i].
      destruct (nonempty f); [|done]. by apply Hsend.
    - destruct (awaiting w !! k); [|done].
      destruct (handleSend_resume_speech (resume_autoSpeak s) o e0
                  (set_awaiting (delete k (awaiting w)) w)) as [-> Hq'].
      split; [done|]. by rewrite Hq'.
    - unfold runEffect. by destruct (pendingEffect w). }
  assert (Hrun : ∀ evs w, Forall (λ ev, ev ≠ PointerDown) evs →
            speechAllowedRef w = false ∧ speechQueue w = [] →
            speechAllowedRef (run evs w) = false ∧ speechQueue (run evs w) = []).
  { clear evs. induction evs as [|ev evs IH]; intros w Hall Hw; simpl; [done|].
    inversion Hall; subst. apply IH; [done|]. by apply Hstep. }
  intros Hall. by apply Hrun.
Qed.

End Speech.

(** ** The server's message assembly *)

Section Assembly.
Import JS Route.

(** What the loop keeps is a [user] or [assistant] entry with a non-empty
    content that is its own trim. *)
Lemma keep_Some item m :
  keep item = Some m →
  role m ≠ system ∧ nonempty (content m) = true ∧ trim (content m) = content m.
Proof.
  unfold keep. destruct (truthy item); simpl; [|done].
  destruct (get "role" item) as [[| | |r| |]|]; try done.
  destruct (get "content" item) as [[| | |c| |]|]; try done.
  destruct (nonempty (trim c)) eqn:Hc; rewrite ?andb_false_r; [|done].
  destruct (String.eqb r "user"); simpl.
  - intros [= <-]. simpl. by rewrite trim_idem.
  - destruct (String.eqb r "assistant"); simpl; [|done].
    intros [= <-]. simpl. by rewrite trim_idem.
Qed.

Lemma omap_length_le {A B} (f : A → option B) (l : list A) :
  length (omap f l) ≤ length l.
Proof.
  induction l as [|x l IH]; [done|].
  change (omap f (x :: l)) with
    (match f x with Some y => y :: omap f l | None => omap f l end).
  destruct (f x); simpl; lia.
Qed.


Lemma conversation_of_length rawHistory : length (conversation_of rawHistory) ≤ 12.
Proof.
  unfold conversation_of.
  etrans; [apply omap_length_le|]. apply slice_last_le.
Qed.

Lemma omap_cons_kept {A B} (f : A → option B) x y (l : list A) :
  f x = Some y → omap f (x :: l) = y :: omap f l.
Proof.
  intros H.
  change (omap f (x :: l)) with
    (match f x with Some y => y :: omap f l | None => omap f l end).
  by rewrite H.
Qed.



Lemma must_push_false conversation prompt :
  must_push conversation prompt = false
  ↔ at_last conversation = Some (mkChat user prompt).
Proof.
  unfold must_push. destruct (at_last conversation) as [[r c]|]; simpl; [|done].
  destruct (String.eqb_spec c prompt) as [->|Hne]; simpl.
  - destruct r; simpl; split; congruence.
  - split; [done|]. intros [= _ ?]. done.
Qed.




End Assembly.

(** ** The history a request carries, and what the server makes of it *)

Section RequestHistory.
Import JS.

Lemma entry_kept (r : Panel.Role) (c : string) :
  nonempty (trim c) = true →
  Route.keep (JObj [("role", JStr (Panel.role_name r)); ("content", JStr c)])
  = Some (Route.mkChat
            (match r with
             | Panel.user => Route.user
             | Panel.assistant => Route.assistant
             end) (trim c)).
Proof. intros H. unfold Route.keep. destruct r; simpl; by rewrite H. Qed.

(** C6, as the code has it.  The history of the request is the window of
    the buffer after the user turn was appended: the last 11 turns of the
    buffer as it was, then the new user turn, whose content is the prompt;
    at most 12 entries.  The server, parsing that body, finds the prompt as
    the last kept entry and forwards the conversation without adding it. *)
Theorem request_history_ends_with_prompt
    (a : bool) (input : string) (e : Panel.Entropy) (w : Panel.World) :
  nonempty (trim input) = true →
  let w' := Panel.handleSend false a input e w in
  let r := Panel.mkRequest (trim input)
             (Panel.wire (slice_last 11 (Panel.messagesRef w))
              ++ [(Panel.user, trim input)]) in
  Panel.fetched w' = Panel.fetched w ++ [r]
  ∧ length (Panel.history r) ≤ 12
  ∧ (length (Panel.messagesRef w) ≤ 11 →
     Panel.history r =
     Spec.history_excluding_prompt (Panel.messagesRef w) ++ [(Panel.user, trim input)])
  ∧ Route.prompt_of (Panel.body_json r) = Panel.prompt r
  ∧ at_last (Route.conversation_of (Route.rawHistory_of (Panel.body_json r)))
    = Some (Route.mkChat Route.user (Panel.prompt r))
  ∧ Route.assemble (Route.prompt_of (Panel.body_json r))
                   (Route.rawHistory_of (Panel.body_json r))
    = Route.mkChat Route.system Route.SYSTEM_PROMPT
      :: Route.conversation_of (Route.rawHistory_of (Panel.body_json r)).
Proof.
  intros Hin w' r.
  assert (Hlen : length (Panel.history r) ≤ 12).
  { unfold r. simpl. rewrite length_app. unfold Panel.wire.
    rewrite length_map. simpl.
    pose proof (slice_last_le 11 (Panel.messagesRef w)). lia. }
  assert (Hprompt : Route.prompt_of (Panel.body_json r) = Panel.prompt r).
  { unfold Route.prompt_of, Panel.body_json, r. simpl. apply trim_idem. }
  assert (Hlast : at_last (Route.conversation_of
                    (Route.rawHistory_of (Panel.body_json r)))
                  = Some (Route.mkChat Route.user (Panel.prompt r))).
  { unfold Route.rawHistory_of, Panel.body_json. simpl.
    unfold Route.conversation_of.
    rewrite slice_last_short by (rewrite length_map; exact Hlen).
    unfold r. simpl. rewrite map_app, omap_app. simpl map.
    assert (Hk : omap Route.keep
                   [JObj [("role", JStr "user"); ("content", JStr (trim input))]]
                 = [Route.mkChat Route.user (trim (trim input))]).
    { exact (omap_cons_kept Route.keep _ _ []
               (entry_kept Panel.user (trim input)
                  (eq_trans (f_equal nonempty (trim_idem input)) Hin))). }
    rewrite Hk.
    rewrite trim_idem. unfold at_last. apply last_snoc. }
  split.
  { subst w'. rewrite (handleSend_proceeds a input e w Hin). simpl.
    unfold Panel.MAX_HISTORY. change 12 with (S 11).
    by rewrite slice_last_snoc_S, wire_app. }
  split; [exact Hlen|].
  split.
  { intros Hshort. unfold r, Spec.history_excluding_prompt. simpl.
    rewrite (slice_last_short 11) by done.
    rewrite (slice_last_short Panel.MAX_HISTORY); [done|].
    unfold Panel.MAX_HISTORY. lia. }
  split; [exact Hprompt|].
  split; [exact Hlast|].
  unfold Route.assemble. rewrite Hprompt.
  by rewrite (proj2 (must_push_false _ _) Hlast).
Qed.

Lemma request_history_ends_with_prompt_witness :
  nonempty (trim " hi ") = true
  ∧ Panel.fetched (Panel.handleSend false true " hi " (Panel.mkEntropy "1" 1001)
                     Scenario.page)
    = [Panel.mkRequest "hi" [(Panel.assistant, Panel.greeting); (Panel.user, "hi")]].
Proof.
  split; [reflexivity|].
  exact (proj1 (request_history_ends_with_prompt true " hi "
                  (Panel.mkEntropy "1" 1001) Scenario.page eq_refl)).
Defined.

(** C6, as the specification has it, fails: the first request of a page
    carries the greeting and the user turn just added, not the greeting
    alone. *)
Lemma request_history_keeps_prompt_turn :
  Panel.history <$> last (Panel.fetched Scenario.submitted)
  ≠ Some (Spec.history_excluding_prompt (Panel.messagesRef Scenario.page))
  ∧ Panel.history <$> last (Panel.fetched Scenario.submitted)
    = Some [(Panel.assistant, Panel.greeting); (Panel.user, "hi")].
Proof. vm_compute. split; congruence. Qed.

End RequestHistory.

(** ** The handler's answers *)

Section Handler.
Import JS Route.
Local Open Scope Z_scope.

Lemma call_upstream_status o :
  let r := call_upstream o in
  (status r = 200 ∧ ∃ reply, body r = JObj [("reply", JStr reply)])
  ∨ ((status r = 500 ∨ status r = 502) ∧ ∃ m, body r = JObj [("error", m)]).
Proof.
  destruct o as [err|st [payload|err]]; simpl.
  - right. split; [by left|by eexists].
  - destruct (ok st); simpl.
    + destruct payload; simpl;
        try (destruct (reply_of _); simpl);
        first [ left; split; [done|by eexists]
              | right; split; [by left|by eexists] ].
    + right. split; [by right|by eexists].
  - destruct (ok st); simpl; right; (split; [by (left + right)|by eexists]).
Qed.

(** Apart from a [null] body, the handler always returns a response, and
    its status is the one the specification lists for the case at hand. *)
Lemma POST_answers env request_json upstream :
  request_json ≠ Parsed JNull →
  ∃ r, POST env request_json upstream = Returned r
       ∧ ((status r = 200 ∧ ∃ reply, body r = JObj [("reply", JStr reply)])
          ∨ ((status r = 400 ∨ status r = 500 ∨ status r = 502)
             ∧ ∃ m, body r = JObj [("error", m)])).
Proof.
  intros Hnn. unfold POST.
  destruct (OPENAI_API_KEY env) as [[|c key]|].
  1, 3: eexists; split; [done|]; right; split; [by right; left|by eexists].
  destruct request_json as [doc|err].
  2: eexists; split; [done|]; right; split; [by left|by eexists].
  assert (Hgo : ∀ b, b ≠ JNull → ∃ r,
    (if negb (nonempty (prompt_of b))
     then Returned (error_response (JStr "Provide a prompt message.") 400)
     else Returned (call_upstream (upstream
            (mkUpstream ("Bearer " +:+ String c key) (OPENAI_MODEL env)
               (4 # 10) 320 0 (assemble (prompt_of b) (rawHistory_of b))))))
    = Returned r
    ∧ ((status r = 200 ∧ ∃ reply, body r = JObj [("reply", JStr reply)])
       ∨ ((status r = 400 ∨ status r = 500 ∨ status r = 502)
          ∧ ∃ m, body r = JObj [("error", m)]))).
  { intros b _. destruct (negb (nonempty (prompt_of b))).
    - eexists; split; [done|]. right; split; [by left|by eexists].
    - eexists; split; [done|].
      destruct (call_upstream_status (upstream
        (mkUpstream ("Bearer " +:+ String c key) (OPENAI_MODEL env)
           (4 # 10) 320 0 (assemble (prompt_of b) (rawHistory_of b)))))
        as [H|[[H|H] Hb]]; [by left|right; split; [by right; left|done]
                            |right; split; [by right; right|done]]. }
  destruct doc; try (apply Hgo; congruence). done.
Qed.

(** Which case yields which status. *)
Lemma POST_classification env request_json upstream :
  (OPENAI_API_KEY env = None ∨ OPENAI_API_KEY env = Some "" →
   POST env request_json upstream =
   Returned (error_response (JStr "Server misconfigured: missing OpenAI API key.") 500))
  ∧ (∀ key, OPENAI_API_KEY env = Some key → key ≠ "" →
       (∀ err, request_json = Unparsable err →
          POST env request_json upstream =
          Returned (error_response (JStr "Invalid JSON body.") 400))
       ∧ (∀ b, request_json = Parsed b → b ≠ JNull → prompt_of b = "" →
          POST env request_json upstream =
          Returned (error_response (JStr "Provide a prompt message.") 400))
       ∧ (∀ b, request_json = Parsed b → b ≠ JNull → prompt_of b ≠ "" →
          POST env request_json upstream =
          Returned (call_upstream (upstream
            (mkUpstream ("Bearer " +:+ key) (OPENAI_MODEL env) (4 # 10) 320 0
               (assemble (prompt_of b) (rawHistory_of b)))))))
  ∧ (∀ st b, ok st = false → status (call_upstream (Response st b)) = 502)
  ∧ (∀ err, status (call_upstream (Rejected err)) = 500).
Proof.
  split; [|split; [|split]].
  - unfold POST. by intros [-> | ->].
  - intros key Hk Hne. unfold POST. rewrite Hk.
    destruct key as [|c key]; [done|].
    split; [by intros err ->|]. split.
    + intros b -> Hb Hp. rewrite Hp. by destruct b.
    + intros b -> Hb Hp.
      apply nonempty_true in Hp. rewrite Hp. by destruct b.
  - intros st b Hok. simpl. by rewrite Hok.
  - done.
Qed.

(** C8, evaluated where the code departs from it.  With the key configured,
    a request whose body is the JSON document [null] (well-formed, and
    without a prompt) makes the handler throw the [TypeError] of reading
    [prompt] off [null]; it returns no response, 400 or other. *)
Theorem POST_throws_on_null_body :
  POST Scenario.configured (Parsed JNull) Scenario.upstream_hello
  = Threw (null_read_TypeError "prompt")
  ∧ ∀ r, POST Scenario.configured (Parsed JNull) Scenario.upstream_hello ≠ Returned r.
Proof. split; [reflexivity|]. intros r. vm_compute. congruence. Qed.

End Handler.

(** * Further properties *)

(** ** The route, whatever it is sent *)

Section RouteAnswers.
Import JS Route.
Local Open Scope Z_scope.

Lemma upstream_error_message_truthy st errorPayload :
  truthy (upstream_error_message st errorPayload) = true.
Proof.
  unfold upstream_error_message.
  destruct (truthy errorPayload); simpl; [|done].
  destruct (get "error" errorPayload) as [err|]; [|done].
  destruct (truthy err); simpl; [|done].
  destruct (get "message" err) as [m|]; [|done].
  by destruct (truthy m) eqn:Hm.
Qed.

Lemma reply_of_trimmed payload reply :
  reply_of payload = inr reply → trim reply = reply.
Proof.
  unfold reply_of.
  destruct (get_opt "content" _) as [[| | |s| |]|]; intros [= <-];
    first [apply trim_idem | reflexivity].
Qed.

(** How the [try] block around the upstream call can end. *)
Lemma call_upstream_cases o :
  (∃ reply, call_upstream o = reply_response reply ∧ trim reply = reply)
  ∨ (∃ msg, call_upstream o = error_response (JStr msg) 500)
  ∨ (∃ m, call_upstream o = error_response m 502 ∧ truthy m = true).
Proof.
  destruct o as [err|st [payload|err]]; simpl.
  - right; left. by eexists.
  - destruct (ok st); simpl.
    + destruct payload; lazy beta iota;
        try (destruct (reply_of _) as [e|reply] eqn:Hr;
             [right; left; by eexists
             |left; exists reply; split; [done|by eapply reply_of_trimmed]]).
      right; left. by eexists.
    + right; right. eexists. split; [done|]. apply upstream_error_message_truthy.
  - destruct (ok st); simpl.
    + right; left. by eexists.
    + right; right. eexists. split; [done|]. apply upstream_error_message_truthy.
Qed.

(** What a returned response can be. *)
Lemma POST_returned_cases env rq u r :
  POST env rq u = Returned r →
  r = error_response (JStr "Server misconfigured: missing OpenAI API key.") 500
  ∨ r = error_response (JStr "Invalid JSON body.") 400
  ∨ r = error_response (JStr "Provide a prompt message.") 400
  ∨ ∃ req, r = call_upstream (u req).
Proof.
  unfold POST.
  destruct (OPENAI_API_KEY env) as [[|c key]|]; try (intros [= <-]; by left).
  destruct rq as [doc|err]; [|intros [= <-]; by right; left].
  destruct doc; try done;
    (destruct (negb (nonempty (prompt_of _)));
     intros [= <-]; [by right; right; left|right; right; right; by eexists]).
Qed.


(** X1.  Unless the request body is the document [null], the handler
    returns a response: status 200 with a [reply] string, or status 400,
    500 or 502 with an [error] member. *)
Theorem POST_answers_unless_null env request_json upstream :
  request_json ≠ Parsed JNull →
  ∃ r, POST env request_json upstream = Returned r
       ∧ ((status r = 200 ∧ ∃ reply, body r = JObj [("reply", JStr reply)])
          ∨ ((status r = 400 ∨ status r = 500 ∨ status r = 502)
             ∧ ∃ m, body r = JObj [("error", m)])).
Proof.
  intros Hnn.
  assert (Hr : ∃ r, POST env request_json upstream = Returned r).
  { unfold POST. destruct (OPENAI_API_KEY env) as [[|c key]|]; try by eexists.
    destruct request_json as [doc|err]; [|by eexists].
    destruct doc; try done; destruct (negb _); by eexists. }
  destruct Hr as [r Hr]. exists r. split; [done|].
  destruct (POST_returned_cases _ _ _ _ Hr) as [->|[->|[->|[req ->]]]].
  - right. split; [by right; left|by eexists].
  - right. split; [by left|by eexists].
  - right. split; [by left|by eexists].
  - destruct (call_upstream_cases (upstream req))
      as [(reply & -> & _)|[(msg & ->)|(m & -> & _)]].
    + left. split; [done|by eexists].
    + right. split; [by right; left|by eexists].
    + right. split; [by right; right|by eexists].
Qed.

Lemma POST_answers_unless_null_witness :
  ∃ r, POST Scenario.configured (Parsed (JObj [("prompt", JStr "hi")]))
            Scenario.upstream_hello = Returned r
       ∧ ((status r = 200 ∧ ∃ reply, body r = JObj [("reply", JStr reply)])
          ∨ ((status r = 400 ∨ status r = 500 ∨ status r = 502)
             ∧ ∃ m, body r = JObj [("error", m)])).
Proof.
  refine (POST_answers_unless_null Scenario.configured
            (Parsed (JObj [("prompt", JStr "hi")])) Scenario.upstream_hello _).
  discriminate.
Defined.



(** X3.  Whatever history arrives, the messages sent upstream begin with
    the system instruction, carry no other system message, end with a user
    message whose content is the prompt, and number between 2 and 14. *)
Theorem assemble_frame (prompt : string) (rawHistory : list JSON) :
  let ms := assemble prompt rawHistory in
  head ms = Some (mkChat system SYSTEM_PROMPT)
  ∧ Forall (λ m, role m ≠ system) (tail ms)
  ∧ last ms = Some (mkChat user prompt)
  ∧ (2 ≤ length ms ≤ 14)%nat.
Proof.
  intros ms. subst ms. unfold assemble.
  set (conv := conversation_of rawHistory).
  assert (Hconv : Forall (λ m, role m ≠ system) conv).
  { apply Forall_forall. intros m Hm.
    apply list_elem_of_omap in Hm as (item & _ & Hk).
    by destruct (keep_Some _ _ Hk). }
  pose proof (conversation_of_length rawHistory) as Hlen. fold conv in Hlen.
  destruct (must_push conv prompt) eqn:Hp.
  - split; [done|]. split.
    { simpl. apply Forall_app. split; [done|]. by repeat constructor. }
    split.
    { change (mkChat system SYSTEM_PROMPT :: conv ++ [mkChat user prompt])
        with ((mkChat system SYSTEM_PROMPT :: conv) ++ [mkChat user prompt]).
      apply last_snoc. }
    simpl. rewrite length_app. simpl. lia.
  - apply must_push_false in Hp. unfold at_last in Hp.
    split; [done|]. split; [done|]. split.
    { destruct conv as [|c conv']; [done|]. by rewrite last_cons, Hp. }
    simpl. destruct conv; [done|]. simpl in *. lia.
Qed.

End RouteAnswers.

(** ** What the panel makes of the route's answers, and the route of the
       panel's requests *)

Section EndToEnd.
Import JS.

(** X4.  A 200 answer of the route is always accepted by the panel: its
    [reply] is a string that is already trimmed, and the panel appends one
    assistant turn holding exactly that string.  The buffer becomes the end
    of the old buffer followed by that turn, 12 turns at most (one more than
    before, when that is not above 12), and the in-flight flag is cleared.
    When [synthSpeak] returns, the error cell is left as it was and the
    speech queue is the one [synthSpeak] leaves; when it throws (a browser
    without speech synthesis), the turn stays appended and the message of
    the exception is recorded. *)
Theorem route_reply_reaches_buffer
    (env : Route.Env) (rq : Body) (u : Route.UpstreamRequest → FetchOutcome)
    (r : Route.NextResponse) (a : bool) (e : Panel.Entropy) (w : Panel.World) :
  Route.POST env rq u = Route.Returned r →
  Route.status r = 200%Z →
  ∃ reply,
    Route.body r = JObj [("reply", JStr reply)]
    ∧ trim reply = reply
    ∧ let w' := Panel.handleSend_resume a
                  (Response (Route.status r) (Parsed (Route.body r))) e w in
      let m := Panel.createMessage Panel.assistant reply e in
      Panel.created w' = Panel.created w ++ [m]
      ∧ Panel.messagesRef w' `suffix_of` Panel.messagesRef w ++ [m]
      ∧ length (Panel.messagesRef w') = min 12 (S (length (Panel.messagesRef w)))
      ∧ last (Panel.messagesRef w') = Some m
      ∧ Panel.messages (Panel.state w') = Panel.messagesRef w'
      ∧ Panel.isProcessing (Panel.state w') = false
      ∧ (∀ ws, Panel.synthSpeak a reply w = inr ws →
           Panel.error (Panel.state w') = Panel.error (Panel.state w)
           ∧ Panel.speechQueue w' = Panel.speechQueue ws)
      ∧ (∀ err, Panel.synthSpeak a reply w = inl err →
           Panel.error (Panel.state w')
           = Some (message_or "Failed to reach the server." err)
           ∧ Panel.speechQueue w' = Panel.speechQueue w).
Proof.
  intros HP Hst.
  assert (Hr : ∃ reply, r = Route.reply_response reply ∧ trim reply = reply).
  { destruct (POST_returned_cases _ _ _ _ HP) as [->|[->|[->|[req ->]]]];
      try discriminate.
    destruct (call_upstream_cases (u req))
      as [(reply & Hc & Ht)|[(msg & Hc)|(m & Hc & _)]];
      rewrite Hc in Hst |- *; try discriminate.
    by exists reply. }
  destruct Hr as (reply & -> & Ht). exists reply.
  split; [done|]. split; [done|].
  cbv zeta. cbn [Route.status Route.body Route.reply_response].
  rewrite (handleSend_resume_replied a
             (Response 200 (Parsed (JObj [("reply", JStr reply)]))) e w reply
             eq_refl).
  rewrite Ht.
  set (m := Panel.createMessage Panel.assistant reply e).
  set (h := slice_last Panel.MAX_HISTORY (Panel.messagesRef w ++ [m])).
  set (w1 := Panel.setMessages h (Panel.set_messagesRef h (Panel.note_created m w))).
  assert (Hh : h `suffix_of` Panel.messagesRef w ++ [m]
               ∧ length h = min 12 (S (length (Panel.messagesRef w)))
               ∧ last h = Some m).
  { split; [apply slice_last_suffix|]. split.
    - unfold h. rewrite slice_last_length, length_app.
      unfold Panel.MAX_HISTORY. change (length [m]) with 1. lia.
    - apply slice_last_last. unfold Panel.MAX_HISTORY. lia. }
  destruct Hh as (Hsuf & Hlen & Hlast).
  pose proof (synthSpeak_transfer a reply w w1 eq_refl eq_refl eq_refl) as Htr.
  destruct (Panel.synthSpeak a reply w1) as [err1|v1] eqn:Hs1.
  - simpl. do 6 (split; [done|]). split.
    + intros ws Hs. by rewrite Hs in Htr.
    + intros err Hs. rewrite Hs in Htr. by subst.
  - destruct (synthSpeak_fields _ _ _ _ Hs1)
      as (Hst1 & _ & _ & _ & Hmr & _ & _ & _ & Hc & _).
    simpl. rewrite Hst1, Hmr, Hc. simpl. do 6 (split; [done|]). split.
    + intros ws Hs. by rewrite Hs in Htr.
    + intros err Hs. by rewrite Hs in Htr.
Qed.

Lemma route_reply_reaches_buffer_witness :
  ∃ reply,
    trim reply = reply
    ∧ last (Panel.messagesRef
        (Panel.handleSend_resume true
           (Response 200 (Parsed (JObj [("reply", JStr reply)])))
           (Panel.mkEntropy "2" 1002) Scenario.submitted))
      = Some (Panel.createMessage Panel.assistant reply (Panel.mkEntropy "2" 1002)).
Proof.
  destruct (route_reply_reaches_buffer Scenario.configured
              (Parsed (JObj [("prompt", JStr "hi")])) Scenario.upstream_hello
              (Route.reply_response "Hello") true (Panel.mkEntropy "2" 1002)
              Scenario.submitted eq_refl eq_refl)
    as (reply & Hb & Ht & _ & _ & _ & Hm & _).
  exists reply. split; [exact Ht|].
  injection Hb as <-. exact Hm.
Defined.



End EndToEnd.

Section PanelToRoute.
Import JS.

(** The route's verdict on one history entry of a request. *)
Lemma entry_keep (rc : Panel.Role * string) :
  trim rc.2 = rc.2 →
  Route.keep (JObj [("role", JStr (Panel.role_name rc.1)); ("content", JStr rc.2)])
  = if nonempty rc.2 then Some (View.chat_of rc) else None.
Proof.
  destruct rc as [r c]. simpl. intros Hc.
  unfold Route.keep, View.chat_of. destruct r; simpl; rewrite Hc;
    by destruct (nonempty c).
Qed.

Lemma omap_keep_entries (h : list (Panel.Role * string)) :
  Forall (λ rc, trim rc.2 = rc.2) h →
  omap Route.keep
    (map (λ rc, JObj [("role", JStr (Panel.role_name rc.1));
                      ("content", JStr rc.2)]) h)
  = View.chat_of <$> filter (λ rc, nonempty rc.2 = true) h.
Proof.
  induction 1 as [|rc h Hrc Hh IH]; [done|].
  rewrite filter_cons.
  change (omap Route.keep (map ?f (rc :: h)))
    with (match Route.keep (f rc) with
          | Some y => y :: omap Route.keep (map f h)
          | None => omap Route.keep (map f h)
          end).
  lazy beta. rewrite (entry_keep rc Hrc), IH.
  destruct (nonempty rc.2) eqn:Hne; case_decide; try done.
Qed.

Lemma route_reads_back_history_aux (r : Panel.Request) :
  length (Panel.history r) ≤ 12 →
  Forall (λ rc, trim rc.2 = rc.2) (Panel.history r) →
  Route.conversation_of (Route.rawHistory_of (Panel.body_json r))
  = View.chat_of <$> filter (λ rc, nonempty rc.2 = true) (Panel.history r).
Proof.
  intros Hlen Htrim.
  change (Route.rawHistory_of (Panel.body_json r))
    with (map (λ rc, JObj [("role", JStr (Panel.role_name rc.1));
                           ("content", JStr rc.2)]) (Panel.history r)).
  unfold Route.conversation_of.
  rewrite slice_last_short by (by rewrite length_map).
  by apply omap_keep_entries.
Qed.

(** X6.  The route reads a request's history back as the panel wrote it:
    for a history of at most 12 entries with trimmed contents, the
    conversation the route retains is that history, role for role and
    content for content, without the entries whose content is empty. *)
Theorem route_reads_back_history (r : Panel.Request) :
  length (Panel.history r) ≤ 12 →
  Forall (λ rc, trim rc.2 = rc.2) (Panel.history r) →
  Route.conversation_of (Route.rawHistory_of (Panel.body_json r))
  = View.chat_of <$> filter (λ rc, nonempty rc.2 = true) (Panel.history r).
Proof.
  intros Hlen Htrim.
  change (Route.rawHistory_of (Panel.body_json r))
    with (map (λ rc, JObj [("role", JStr (Panel.role_name rc.1));
                           ("content", JStr rc.2)]) (Panel.history r)).
  unfold Route.conversation_of.
  rewrite slice_last_short by (by rewrite length_map).
  by apply omap_keep_entries.
Qed.

Lemma route_reads_back_history_witness :
  Route.conversation_of (Route.rawHistory_of (Panel.body_json
    (Panel.mkRequest "hi" [(Panel.assistant, ""); (Panel.user, "hi")])))
  = [Route.mkChat Route.user "hi"].
Proof.
  refine (route_reads_back_history
            (Panel.mkRequest "hi" [(Panel.assistant, ""); (Panel.user, "hi")]) _ _).
  - simpl. lia.
  - repeat constructor.
Defined.

Lemma well_formed_request_accepted env key u r :
  Route.OPENAI_API_KEY env = Some key →
  key ≠ "" →
  View.well_formed_request r →
  Route.POST env (Parsed (Panel.body_json r)) u
  = Route.Returned (Route.call_upstream (u
      (Route.mkUpstream ("Bearer " +:+ key) (Route.OPENAI_MODEL env) (4 # 10) 320 0
         (Route.mkChat Route.system Route.SYSTEM_PROMPT
          :: Route.conversation_of (Route.rawHistory_of (Panel.body_json r)))))).
Proof.
  intros Hk Hne (Hp & Htp & Hlen & Hlast & Htrim).
  assert (Hprompt : Route.prompt_of (Panel.body_json r) = Panel.prompt r).
  { unfold Route.prompt_of, Panel.body_json. simpl. exact Htp. }
  assert (Hconv : at_last (Route.conversation_of
                    (Route.rawHistory_of (Panel.body_json r)))
                  = Some (Route.mkChat Route.user (Panel.prompt r))).
  { rewrite (route_reads_back_history_aux r Hlen Htrim). unfold at_last.
    rewrite fmap_last.
    apply last_Some in Hlast as [h' Hh]. rewrite Hh.
    rewrite filter_app, filter_cons, filter_nil.
    case_decide; [|simpl in *; congruence].
    by rewrite last_snoc. }
  unfold Route.POST. rewrite Hk.
  destruct key as [|c key]; [done|].
  change (Panel.body_json r) with
    (JObj [("prompt", JStr (Panel.prompt r));
           ("history", JArr (map (λ rc, JObj [("role", JStr (Panel.role_name rc.1));
                                              ("content", JStr rc.2)])
                                 (Panel.history r)))]) at 1.
  lazy beta iota. rewrite Hprompt, Hp. simpl negb. lazy beta iota.
  unfold Route.assemble.
  by rewrite (proj2 (must_push_false _ _) Hconv).
Qed.

End PanelToRoute.

(** ** The page over whole traces *)

Section Traces.
Import JS Panel View.

Lemma handleToggleRecording_frame t w :
  let w' := handleToggleRecording t w in
  messages (state w') = messages (state w)
  ∧ transcript (state w') = transcript (state w)
  ∧ isProcessing (state w') = isProcessing (state w)
  ∧ rendered w' = rendered w
  ∧ platform w' = platform w
  ∧ fetched w' = fetched w
  ∧ awaiting w' = awaiting w
  ∧ (∀ r, recognitionRef w = Some r → recognitionRef w' = Some r)
  ∧ (recognitionRef w' = None →
     recognitionRef w = None ∧ status (state w') = status (state w))
  ∧ (window_defined (platform w) = false ∨ recognition_supported (platform w) = false →
     recognitionRef w = None → recognitionRef w' = None).
Proof.
  intros w'. subst w'. unfold handleToggleRecording, ensureRecognition.
  destruct (window_defined (platform w)) eqn:Hw; simpl.
  2: { repeat split; try done; congruence. }
  destruct (recognitionRef w) as [r0|] eqn:Hr; simpl.
  - destruct (status (rendered w)); simpl; try destruct t; simpl;
      rewrite ?Hr; repeat split; try done; try congruence.
  - destruct (recognition_supported (platform w)) eqn:Hs; simpl.
    + destruct (status (rendered w)); simpl; try destruct t; simpl;
        rewrite ?Hr; repeat split; try done; intros [|]; congruence.
    + rewrite ?Hr. repeat split; try done.
Qed.

Lemma well_formed_user input e :
  nonempty (trim input) = true →
  well_formed_turn (createMessage user (trim input) e).
Proof. intros H. split; simpl; [apply trim_idem|done]. Qed.

Lemma well_formed_assistant reply e :
  well_formed_turn (createMessage assistant (trim reply) e).
Proof. split; simpl; [apply trim_idem|done]. Qed.

(** The request of a submit that goes through is well formed when the
    buffer holds well-formed turns. *)
Lemma submit_request_well_formed input e (buffer : list Message) :
  nonempty (trim input) = true →
  Forall well_formed_turn buffer →
  well_formed_request
    (mkRequest (trim input)
       (wire (slice_last MAX_HISTORY (buffer ++ [createMessage user (trim input) e])))).
Proof.
  intros Hin Hb. unfold well_formed_request. simpl.
  split; [done|]. split; [apply trim_idem|]. split.
  { unfold wire. rewrite length_map. apply slice_last_le. }
  split.
  { unfold wire. rewrite fmap_last.
    rewrite slice_last_last by (unfold MAX_HISTORY; lia). done. }
  unfold wire. apply Forall_fmap.
  eapply Forall_impl.
  - apply Forall_drop. apply Forall_app. split; [exact Hb|].
    constructor; [by apply well_formed_user|constructor].
  - by intros m [Hm _].
Qed.

Lemma log_inv_buffer w : log_inv w → Forall well_formed_turn (messagesRef w).
Proof.
  intros (Hc & Hb & _).
  destruct (Hb (messagesRef w)) as [_ Hsub]; [unfold held; auto|].
  eapply Forall_forall. intros m Hm.
  eapply Forall_forall in Hc; [exact Hc|]. by eapply elem_of_sublist.
Qed.

Lemma handleSend_log_inv ip a input e w :
  log_inv w → log_inv (handleSend ip a input e w).
Proof.
  intros Hw. pose proof (log_inv_buffer w Hw) as Hb.
  destruct Hw as (Hc & Hbuf & Hf).
  destruct (handleSend_cases ip a input e w) as [->|(Hin & _ & ->)]; [done|].
  simpl. split; [|split].
  - apply Forall_app. split; [done|].
    constructor; [by apply well_formed_user|constructor].
  - intros l Hl.
    assert (Hl' : held w l
                  ∨ l = slice_last MAX_HISTORY
                          (messagesRef w ++ [createMessage user (trim input) e])).
    { revert Hl. unfold held. simpl. intros [->|[->|[->|H]]]; auto. }
    destruct Hl' as [Hl'| ->].
    + destruct (Hbuf l Hl') as [? ?]. split; [done|]. by apply sublist_inserts_r.
    + split; [apply slice_last_le|]. apply slice_last_snoc_sublist.
      apply (Hbuf (messagesRef w)). unfold held. auto.
  - apply Forall_app. split; [done|].
    constructor; [by apply submit_request_well_formed|constructor].
Qed.

Lemma step_log_inv ev w : log_inv w → log_inv (step ev w).
Proof.
  intros Hw. pose proof Hw as (Hc & Hbuf & Hf).
  split; [|split; [by apply step_buffer_inv|]].
  - destruct ev as [| | |v|e|t| |err| |ev e|k o e|]; simpl; try done.
    + by rewrite render_created.
    + by apply handleSend_log_inv.
    + by destruct (handleToggleRecording_fields t w) as (_ & _ & -> & _).
    + by destruct (recognitionRef w).
    + by destruct (recognitionRef w).
    + by destruct (recognitionRef w).
    + destruct (recognitionRef w) as [r|]; [|done].
      unfold onresult. destruct (gather _ _ _) as [f i].
      destruct (nonempty f); [|done].
      by apply (handleSend_log_inv _ _ _ _ (setTranscript "" w)).
    + destruct (awaiting w !! k); [|done].
      destruct (handleSend_resume_frame (resume_autoSpeak s) o e
                  (set_awaiting (delete k (awaiting w)) w))
        as (_ & _ & _ & [(err & _ & -> & _)|(reply & _ & -> & _)]); [done|].
      apply Forall_app. split; [done|].
      constructor; [apply well_formed_assistant|constructor].
    + by rewrite runEffect_created.
  - destruct ev as [| | |v|e|t| |err| |ev e|k o e|]; simpl; try done.
    + unfold render, runEffect.
      destruct (pendingEffect w); simpl; by destruct (messagesReplaced _).
    + by apply handleSend_log_inv.
    + by destruct (handleToggleRecording_frame t w) as (_ & _ & _ & _ & _ & -> & _).
    + by destruct (recognitionRef w).
    + by destruct (recognitionRef w).
    + by destruct (recognitionRef w).
    + destruct (recognitionRef w) as [r|]; [|done].
      unfold onresult. destruct (gather _ _ _) as [f i].
      destruct (nonempty f); [|done].
      by apply (handleSend_log_inv _ _ _ _ (setTranscript "" w)).
    + destruct (awaiting w !! k); [|done].
      by destruct (handleSend_resume_frame (resume_autoSpeak s) o e
                  (set_awaiting (delete k (awaiting w)) w))
        as ((-> & _) & _).
    + unfold runEffect. by destruct (pendingEffect w).
Qed.

Lemma run_log_inv evs w : log_inv w → log_inv (run evs w).
Proof.
  revert w. induction evs as [|ev evs IH]; intros w Hw; simpl; [done|].
  apply IH. by apply step_log_inv.
Qed.

Lemma initial_log_inv p e : log_inv (initial p e).
Proof.
  split; [|split; [apply initial_buffer_inv|constructor]].
  constructor; [|constructor]. split; [reflexivity|done].
Qed.

(** X7.  Every turn the page ever appends, and so every turn its buffer
    shows, has a content that is its own trim, and every user turn has a
    non-empty content. *)
Theorem turns_are_trimmed (p : Platform) (e : Entropy) (evs : list Event) :
  let w := run evs (initial p e) in
  Forall well_formed_turn (created w)
  ∧ Forall well_formed_turn (messages (state w)).
Proof.
  intros w.
  pose proof (run_log_inv evs _ (initial_log_inv p e)) as Hw. fold w in Hw.
  destruct Hw as (Hc & Hb & _). split; [exact Hc|].
  destruct (Hb (messages (state w))) as [_ Hsub]; [unfold held; auto|].
  eapply Forall_forall. intros m Hm.
  eapply Forall_forall in Hc; [exact Hc|]. by eapply elem_of_sublist.
Qed.

(** An assistant turn can be empty: a reply that is all white space is
    appended as a turn without content. *)
Lemma blank_reply_is_an_empty_turn :
  last (map content (messages (state
    (step (Settle 0 (Response 200 (Parsed (JObj [("reply", JStr "  ")])))
                  (mkEntropy "2" 1002)) Scenario.submitted))))
  = Some "".
Proof. reflexivity. Qed.


(** X8.  Every request the page ever issues is well formed (a non-empty
    trimmed prompt, at most 12 history entries with trimmed contents, the
    last of them the user turn of the prompt) and passes the route's
    validation: with a key configured the route calls the upstream model,
    with the system instruction followed by the retained history and no
    second copy of the prompt. *)
Theorem every_request_passes_validation
    (p : Platform) (e : Entropy) (evs : list Event) (r : Request)
    (env : Route.Env) (key : string) (u : Route.UpstreamRequest → FetchOutcome) :
  r ∈ fetched (run evs (initial p e)) →
  Route.OPENAI_API_KEY env = Some key →
  key ≠ "" →
  well_formed_request r
  ∧ Route.POST env (Parsed (body_json r)) u
    = Route.Returned (Route.call_upstream (u
        (Route.mkUpstream ("Bearer " +:+ key) (Route.OPENAI_MODEL env) (4 # 10) 320 0
           (Route.mkChat Route.system Route.SYSTEM_PROMPT
            :: Route.conversation_of (Route.rawHistory_of (body_json r)))))).
Proof.
  intros Hr Hk Hne.
  destruct (run_log_inv evs _ (initial_log_inv p e)) as (_ & _ & Hf).
  assert (Hwf : well_formed_request r).
  { by eapply Forall_forall in Hf. }
  split; [exact Hwf|]. by apply well_formed_request_accepted.
Qed.

Lemma every_request_passes_validation_witness :
  Route.POST Scenario.configured
    (Parsed (body_json (mkRequest "hi" [(assistant, greeting); (user, "hi")])))
    Scenario.upstream_hello
  = Route.Returned (Route.reply_response "Hello").
Proof.
  refine (eq_trans (proj2 (every_request_passes_validation Scenario.browser
            (mkEntropy "0" 1000)
            [ChangeInput "hi"; Render; SubmitForm (mkEntropy "1" 1001); Render]
            (mkRequest "hi" [(assistant, greeting); (user, "hi")])
            Scenario.configured "sk-test" Scenario.upstream_hello _ eq_refl _)) _).
  - vm_compute. apply list_elem_of_In. simpl. auto.
  - discriminate.
  - reflexivity.
Defined.

Lemma render_form w :
  (awaiting w = [] ∧ isProcessing (state w) = false)
  ∨ (length (awaiting w) = 1 ∧ isProcessing (state w) = true) →
  form_inv (render w).
Proof.
  intros H. unfold form_inv.
  rewrite render_rendered, render_state.
  assert (Ha : awaiting (render w) = awaiting w).
  { unfold render, runEffect.
    destruct (pendingEffect w); simpl; by destruct (messagesReplaced _). }
  rewrite Ha. destruct H as [[? ?]|[? ?]]; auto.
Qed.

Lemma form_events_inv act w : form_inv w → form_inv (run (form_events act) w).
Proof.
  intros Hw. destruct act as [v| | | |e|k o e]; simpl.
  - destruct Hw as [[? ?]|(? & ? & ?)]; [by left|by right].
  - destruct Hw as [[? ?]|(? & ? & ?)]; [by left|by right].
  - destruct Hw as [[? ?]|(? & ? & ?)]; [by left|by right].
  - apply render_form. destruct Hw as [[? ?]|(? & ? & ?)]; auto.
  - apply render_form. unfold handleSubmit.
    destruct (handleSend_cases (isProcessing (rendered w)) (autoSpeak (rendered w))
                (pendingInput (rendered w)) e w) as [->|(_ & Hip & ->)].
    + destruct Hw as [[? ?]|(? & ? & ?)]; auto.
    + destruct Hw as [[Ha ?]|(? & ? & ?)]; [|congruence].
      right. simpl. rewrite Ha. done.
  - destruct Hw as [[Ha Hp]|(Hl & Hp & Hr)].
    + rewrite Ha. simpl. left. by rewrite Ha.
    + destruct (awaiting w) as [|s [|s' rest]] eqn:Ha; try done.
      destruct k as [|k].
      * change ([s] !! 0) with (Some s).
        change (delete 0 [s]) with (@nil Suspended).
        destruct (handleSend_resume_frame (resume_autoSpeak s) o e
                    (set_awaiting [] w))
          as ((_ & Haw & _) & (_ & _ & _ & _ & Hpr) & _).
        left. by split.
      * change ([s] !! S k) with (@None Suspended). right. by rewrite Ha.
Qed.

Lemma form_trace_inv acts w : form_inv w → form_inv (run (form_trace acts) w).
Proof.
  revert w. induction acts as [|act acts IH]; intros w Hw; [done|].
  unfold form_trace. simpl. rewrite run_app.
  apply IH. by apply form_events_inv.
Qed.

(** X9.  On a page used through the form alone (typing, sending, toggling
    auto voice, touching the page, re-renders, replies arriving), at most
    one request is in flight at any time, the in-flight flag is up exactly
    while one is, and while one is a further submit changes nothing. *)
Theorem form_turns_are_serialized (p : Platform) (e : Entropy) (acts : list FormAction) :
  let w := run (form_trace acts) (initial p e) in
  length (awaiting w) ≤ 1
  ∧ (isProcessing (state w) = true ↔ awaiting w ≠ [])
  ∧ (awaiting w ≠ [] → ∀ e', step (SubmitForm e') w = w).
Proof.
  intros w.
  assert (Hw : form_inv w).
  { apply form_trace_inv. by left. }
  destruct Hw as [[Ha Hp]|(Hl & Hp & Hr)].
  - rewrite Ha, Hp. simpl. repeat split; try done; lia.
  - rewrite Hl, Hp. repeat split; try done.
    + by destruct (awaiting w).
    + intros _ e'. by apply handleSubmit_while_rendered_in_flight.
Qed.

Lemma form_turns_are_serialized_witness :
  let w := run (form_trace [Typing "hi"; Rerender; Send (mkEntropy "1" 1001)])
               Scenario.page in
  awaiting w ≠ []
  ∧ step (SubmitForm (mkEntropy "2" 1002)) w = w.
Proof.
  assert (H : awaiting (run (form_trace [Typing "hi"; Rerender; Send (mkEntropy "1" 1001)])
                            Scenario.page) ≠ []) by discriminate.
  split; [exact H|].
  exact (proj2 (proj2 (form_turns_are_serialized Scenario.browser (mkEntropy "0" 1000)
                         [Typing "hi"; Rerender; Send (mkEntropy "1" 1001)]))
           H (mkEntropy "2" 1002)).
Defined.

End Traces.

(** ** The recognizer, the microphone and the speech gate *)

Section Capture.
Import JS Panel View.

Lemma handleSend_keeps_refs ip a input e w :
  recognitionRef (handleSend ip a input e w) = recognitionRef w
  ∧ platform (handleSend ip a input e w) = platform w
  ∧ speechAllowedRef (handleSend ip a input e w) = speechAllowedRef w
  ∧ status (state (handleSend ip a input e w)) = status (state w).
Proof. by destruct (handleSend_cases ip a input e w) as [->|(_ & _ & ->)]. Qed.

Lemma step_keeps_platform ev w : platform (step ev w) = platform w.
Proof.
  destruct ev as [| | |v|e|t| |err| |ev e|k o e|]; simpl; try done.
  - render_case.
  - apply handleSend_keeps_refs.
  - by destruct (handleToggleRecording_frame t w) as (_ & _ & _ & _ & -> & _).
  - by destruct (recognitionRef w).
  - by destruct (recognitionRef w).
  - by destruct (recognitionRef w).
  - destruct (recognitionRef w) as [r|]; [|done].
    unfold onresult. destruct (gather _ _ _) as [f i].
    destruct (nonempty f); [|done].
    by destruct (handleSend_keeps_refs (onresult_isProcessing r) (onresult_autoSpeak r)
                   (trim f) e (setTranscript "" w)) as (_ & -> & _).
  - destruct (awaiting w !! k); [|done].
    by destruct (handleSend_resume_frame (resume_autoSpeak s) o e
                   (set_awaiting (delete k (awaiting w)) w))
      as ((_ & _ & _ & _ & -> & _) & _).
  - effect_case.
Qed.

Lemma step_keeps_recognizer ev w r :
  recognitionRef w = Some r → recognitionRef (step ev w) = Some r.
Proof.
  intros Hr.
  destruct ev as [| | |v|e|t| |err| |ev e|k o e|]; simpl; try done.
  - render_case.
  - unfold handleSubmit. by rewrite (proj1 (handleSend_keeps_refs _ _ _ _ _)).
  - by apply (handleToggleRecording_frame t w).
  - by rewrite Hr.
  - by rewrite Hr.
  - by rewrite Hr.
  - rewrite Hr. unfold onresult. destruct (gather _ _ _) as [f i].
    destruct (nonempty f); [|done].
    by rewrite (proj1 (handleSend_keeps_refs _ _ _ _ _)).
  - destruct (awaiting w !! k); [|done].
    by destruct (handleSend_resume_frame (resume_autoSpeak s) o e
                   (set_awaiting (delete k (awaiting w)) w))
      as ((_ & _ & _ & -> & _) & _).
  - effect_case.
Qed.

Lemma run_keeps_recognizer evs w r :
  recognitionRef w = Some r → recognitionRef (run evs w) = Some r.
Proof.
  revert w. induction evs as [|ev evs IH]; intros w Hr; simpl; [done|].
  apply IH. by apply step_keeps_recognizer.
Qed.

(** X10.  The recognizer is built once.  In a browser that supports speech
    recognition, the first click on the microphone builds it over the
    [handleSend] of the render the click happened in, and whatever the page
    goes through afterwards, [recognitionRef] holds that same recognizer,
    with the [isProcessing] and [autoSpeak] of that render. *)
Theorem recognizer_is_built_once
    (w : World) (start_throws : option Thrown) (evs : list Event) :
  window_defined (platform w) = true →
  recognition_supported (platform w) = true →
  recognitionRef w = None →
  recognitionRef (run evs (step (ClickMicrophone start_throws) w))
  = Some (mkRecognizer (isProcessing (rendered w)) (autoSpeak (rendered w))).
Proof.
  intros Hw Hs Hr. apply run_keeps_recognizer.
  simpl. unfold handleToggleRecording, ensureRecognition.
  rewrite Hw, Hr, Hs. simpl.
  destruct (status (rendered w)); simpl; try done; by destruct start_throws.
Qed.

Lemma recognizer_is_built_once_witness :
  recognitionRef
    (run [RecognitionStart; Render; ChangeInput "hello"; Render;
          SubmitForm (mkEntropy "1" 1001); Render;
          RecognitionResultEvent (Scenario.final_result "book a tour")
            (mkEntropy "2" 1002)]
         (step (ClickMicrophone None) Scenario.page))
  = Some (mkRecognizer false true).
Proof.
  exact (recognizer_is_built_once Scenario.page None
           [RecognitionStart; Render; ChangeInput "hello"; Render;
            SubmitForm (mkEntropy "1" 1001); Render;
            RecognitionResultEvent (Scenario.final_result "book a tour")
              (mkEntropy "2" 1002)]
           eq_refl eq_refl eq_refl).
Defined.

(** X11.  Without a recognizer the capture status never leaves [idle] and
    no interim transcript is ever shown; and in a browser without speech
    recognition a recognizer never comes to exist, whatever is clicked. *)
Theorem no_recognizer_no_capture (p : Platform) (e : Entropy) (evs : list Event) :
  let w := run evs (initial p e) in
  (recognitionRef w = None → status (state w) = idle ∧ transcript (state w) = "")
  ∧ (window_defined p = false ∨ recognition_supported p = false →
     recognitionRef w = None).
Proof.
  intros w. subst w.
  set (K := λ w : World,
         platform w = p
         ∧ (recognitionRef w = None → status (state w) = idle ∧ transcript (state w) = "")
         ∧ (window_defined p = false ∨ recognition_supported p = false →
            recognitionRef w = None)).
  assert (Hstep : ∀ ev w, K w → K (step ev w)).
  { intros ev w (Hp & Hn & Hu).
    split; [by rewrite step_keeps_platform|].
    destruct ev as [| | |v|e0|t| |err| |ev e0|k o e0|]; simpl; try done.
    - render_case.
    - unfold handleSubmit.
      destruct (handleSend_cases (isProcessing (rendered w)) (autoSpeak (rendered w))
                  (pendingInput (rendered w)) e0 w) as [->|(_ & _ & ->)]; [done|].
      simpl. split; [|done]. intros H. by destruct (Hn H) as [-> _].
    - destruct (handleToggleRecording_frame t w)
        as (_ & Ht & _ & _ & _ & _ & _ & _ & Hnone & Huns).
      split.
      + intros H. destruct (Hnone H) as [H0 ->]. rewrite Ht. by apply Hn.
      + rewrite Hp in Huns. intros H. exact (Huns H (Hu H)).
    - destruct (recognitionRef w) eqn:Hr; [|split; [intros _; by apply Hn|done]].
      simpl. rewrite Hr.
      split; [done|]. intros H. specialize (Hu H). congruence.
    - destruct (recognitionRef w) eqn:Hr; [|split; [intros _; by apply Hn|done]].
      simpl. rewrite Hr.
      split; [done|]. intros H. specialize (Hu H). congruence.
    - destruct (recognitionRef w) eqn:Hr; [|split; [intros _; by apply Hn|done]].
      simpl. rewrite Hr.
      split; [done|]. intros H. specialize (Hu H). congruence.
    - destruct (recognitionRef w) as [r|] eqn:Hr; [|split; [intros _; by apply Hn|done]].
      split; [|intros H; specialize (Hu H); congruence].
      intros H. exfalso.
      assert (Hk : recognitionRef (step (RecognitionResultEvent ev e0) w) = Some r)
        by by apply step_keeps_recognizer.
      simpl in Hk. rewrite Hr in Hk. congruence.
    - destruct (awaiting w !! k); [|done].
      destruct (handleSend_resume_frame (resume_autoSpeak s) o e0
                  (set_awaiting (delete k (awaiting w)) w))
        as ((_ & _ & _ & -> & _) & (-> & -> & _) & _). done.
    - effect_case. }
  assert (Hrun : ∀ evs w, K w → K (run evs w)).
  { clear evs. induction evs as [|ev evs IH]; intros w Hw; simpl; [done|].
    apply IH. by apply Hstep. }
  destruct (Hrun evs (initial p e)) as (_ & H1 & H2); [|by split].
  split; [done|]. split; [done|]. done.
Qed.

Lemma no_recognizer_no_capture_witness :
  let w := run [ClickMicrophone None; RecognitionStart; Render]
               (initial (mkPlatform true false true true) (mkEntropy "0" 1000)) in
  recognitionRef w = None
  ∧ status (state w) = idle
  ∧ error (state w) = Some "Voice input is not supported in this browser.".
Proof.
  pose proof (no_recognizer_no_capture (mkPlatform true false true true) (mkEntropy "0" 1000)
                [ClickMicrophone None; RecognitionStart; Render]) as [H1 H2].
  split; [exact (H2 (or_intror eq_refl))|].
  split; [exact (proj1 (H1 (H2 (or_intror eq_refl))))|reflexivity].
Defined.

Lemma step_keeps_speech_allowed ev w :
  speechAllowedRef w = true → speechAllowedRef (step ev w) = true.
Proof.
  intros Hs.
  destruct ev as [| | |v|e|t| |err| |ev e|k o e|]; simpl; try done.
  - render_case.
  - unfold handleSubmit.
    by destruct (handleSend_keeps_refs (isProcessing (rendered w)) (autoSpeak (rendered w))
                   (pendingInput (rendered w)) e w) as (_ & _ & -> & _).
  - unfold handleToggleRecording, ensureRecognition.
    destruct (window_defined _); simpl; [|done].
    destruct (recognitionRef w); simpl.
    + destruct (status (rendered w)); simpl; try done; by destruct t.
    + destruct (recognition_supported _); simpl; [|done].
      destruct (status (rendered w)); simpl; try done; by destruct t.
  - by destruct (recognitionRef w).
  - by destruct (recognitionRef w).
  - by destruct (recognitionRef w).
  - destruct (recognitionRef w) as [r|]; [|done].
    unfold onresult. destruct (gather _ _ _) as [f i].
    destruct (nonempty f); [|done].
    by destruct (handleSend_keeps_refs (onresult_isProcessing r) (onresult_autoSpeak r)
                   (trim f) e (setTranscript "" w)) as (_ & _ & -> & _).
  - destruct (awaiting w !! k); [|done].
    by rewrite (proj1 (handleSend_resume_speech _ _ _ _)).
  - effect_case.
Qed.

(** X12.  The speech gate opens once and stays open.  Before the first
    pointer interaction nothing is spoken, whatever replies arrive; from the
    first pointer interaction on, [speechAllowedRef] is [true] for the rest
    of the page's life. *)
Theorem speech_gate_opens_once (p : Platform) (e : Entropy) (evs evs' : list Event) :
  (Forall (λ ev, ev ≠ PointerDown) evs →
   speechAllowedRef (run evs (initial p e)) = false
   ∧ speechQueue (run evs (initial p e)) = [])
  ∧ speechAllowedRef (run evs' (step PointerDown (run evs (initial p e)))) = true.
Proof.
  split; [apply silent_until_first_interaction|].
  generalize (step PointerDown (run evs (initial p e))) (eq_refl :
    speechAllowedRef (step PointerDown (run evs (initial p e))) = true).
  induction evs' as [|ev evs' IH]; intros w Hw; simpl; [done|].
  apply IH. by apply step_keeps_speech_allowed.
Qed.

Lemma speech_gate_opens_once_witness :
  speechQueue (run [ChangeInput "hi"; Render; SubmitForm (mkEntropy "1" 1001); Render;
                    Settle 0 (Response 200 (Parsed (JObj [("reply", JStr "Hello")])))
                           (mkEntropy "2" 1002)]
                   (initial Scenario.browser (mkEntropy "0" 1000)))
  = [].
Proof.
  refine (proj2 (proj1 (speech_gate_opens_once Scenario.browser (mkEntropy "0" 1000)
            [ChangeInput "hi"; Render; SubmitForm (mkEntropy "1" 1001); Render;
             Settle 0 (Response 200 (Parsed (JObj [("reply", JStr "Hello")])))
                    (mkEntropy "2" 1002)] []) _)).
  repeat constructor; discriminate.
Defined.

End Capture.

(** ** Recognition results, the send button and message ids *)

Section Fragments.
Import JS Panel View.

Lemma append_empty_r (s : string) : s +:+ "" = s.
Proof.
  induction s as [|c s IH]; [done|].
  change (String c (s +:+ "") = String c s). by f_equal.
Qed.

Lemma append_assoc (s t u : string) : (s +:+ t) +:+ u = s +:+ (t +:+ u).
Proof.
  induction s as [|c s IH]; [done|].
  change (String c ((s +:+ t) +:+ u) = String c (s +:+ (t +:+ u))). by f_equal.
Qed.

(** The loop of [onresult] sorts the fragments into the final and the
    interim ones and joins each kind in order. *)
Lemma gather_joined rs finalText interimText :
  gather rs finalText interimText
  = (finalText +:+ joined true rs, interimText +:+ joined false rs).
Proof.
  revert finalText interimText.
  induction rs as [|r rs IH]; intros f i; unfold joined; cbn [gather foldr].
  - by rewrite !append_empty_r.
  - fold (joined true rs). fold (joined false rs).
    destruct (isFinal r); cbn [Bool.eqb]; rewrite IH; by rewrite append_assoc.
Qed.

(** X13.  A recognition event is read from [resultIndex] on.  When the
    final fragments from there carry text, the interim transcript is
    cleared and their joined text, trimmed, is submitted through the
    recognizer's [handleSend]; the interim fragments are ignored.  When they
    carry none (no final fragment, or only empty ones), nothing is submitted:
    buffer and network are untouched and the interim transcript becomes the
    joined interim text, trimmed.  An index at or past the end clears the
    interim transcript. *)
Theorem onresult_reads_fragments
    (rec : Recognizer) (ev : RecognitionEvent) (e : Entropy) (w : World) :
  let finalText := joined true (visited ev) in
  let interimText := joined false (visited ev) in
  onresult rec ev e w
  = (if nonempty finalText
     then handleSend (onresult_isProcessing rec) (onresult_autoSpeak rec)
                     (trim finalText) e (setTranscript "" w)
     else setTranscript (trim interimText) w)
  ∧ (nonempty finalText = true → transcript (state (onresult rec ev e w)) = "")
  ∧ (nonempty finalText = false →
     messagesRef (onresult rec ev e w) = messagesRef w
     ∧ created (onresult rec ev e w) = created w
     ∧ fetched (onresult rec ev e w) = fetched w
     ∧ transcript (state (onresult rec ev e w)) = trim interimText)
  ∧ (length (results ev) ≤ resultIndex ev →
     onresult rec ev e w = setTranscript "" w).
Proof.
  intros finalText interimText.
  assert (Heq : onresult rec ev e w
                = (if nonempty finalText
                   then handleSend (onresult_isProcessing rec) (onresult_autoSpeak rec)
                                   (trim finalText) e (setTranscript "" w)
                   else setTranscript (trim interimText) w)).
  { unfold onresult. fold (visited ev). by rewrite gather_joined. }
  split; [exact Heq|]. rewrite Heq. split; [|split].
  - intros ->.
    by destruct (handleSend_cases (onresult_isProcessing rec) (onresult_autoSpeak rec)
                   (trim finalText) e (setTranscript "" w)) as [->|(_ & _ & ->)].
  - by intros ->.
  - intros Hlen. subst finalText interimText. unfold visited.
    by rewrite drop_ge.
Qed.

Lemma onresult_reads_fragments_witness :
  let ev := mkRecognitionEvent 1
              [mkResult true "old"; mkResult false " book"; mkResult false " a tour "] in
  let w := onresult (mkRecognizer false true) ev (mkEntropy "1" 1001) Scenario.page in
  transcript (state w) = "book a tour"
  ∧ fetched w = [].
Proof.
  pose proof (proj1 (proj2 (proj2 (onresult_reads_fragments (mkRecognizer false true)
       (mkRecognitionEvent 1
          [mkResult true "old"; mkResult false " book"; mkResult false " a tour "])
       (mkEntropy "1" 1001) Scenario.page))) eq_refl) as (_ & _ & Hf & Ht).
  split; [exact Ht|exact Hf].
Defined.

(** X14.  The send button mirrors the handler: it is disabled (over the
    state the page was rendered from) exactly when submitting the form
    would change nothing. *)
Theorem send_button_matches_handler (e : Entropy) (w : World) :
  send_disabled (rendered w) = true ↔ handleSubmit e w = w.
Proof.
  unfold send_disabled, handleSubmit. split.
  - intros H. apply orb_true_iff in H as [H|H].
    + rewrite H. apply handleSend_busy.
    + apply negb_true_iff in H. by apply handleSend_blank.
  - intros H.
    destruct (isProcessing (rendered w)); [done|]. simpl.
    destruct (nonempty (trim (pendingInput (rendered w)))) eqn:Hne; [|done].
    rewrite (handleSend_proceeds _ _ _ _ Hne) in H.
    apply (f_equal (λ x, length (fetched x))) in H. simpl in H.
    rewrite length_app in H. simpl in H. lia.
Qed.

Lemma send_button_matches_handler_witness :
  send_disabled (rendered Scenario.submitted) = true
  ∧ handleSubmit (mkEntropy "2" 1002) Scenario.submitted = Scenario.submitted.
Proof.
  split; [reflexivity|].
  exact (proj1 (send_button_matches_handler (mkEntropy "2" 1002) Scenario.submitted)
           eq_refl).
Defined.

(** X15.  The id of a message tells its role and the value [makeId]
    returned for it: two messages carry the same id exactly when they have
    the same role and were given the same [makeId] value. *)
Theorem message_id_tells_role_and_uuid
    (r r' : Role) (c c' : string) (e e' : Entropy) :
  id (createMessage r c e) = id (createMessage r' c' e')
  ↔ r = r' ∧ uuid e = uuid e'.
Proof.
  split.
  - destruct r, r'; simpl; intros H; try discriminate;
      injection H as H; by split.
  - intros [-> H]. unfold createMessage. cbn [id]. by rewrite H.
Qed.

Lemma message_id_tells_role_and_uuid_witness :
  id (createMessage user "hi" (mkEntropy "1" 1001))
  ≠ id (createMessage assistant "hi" (mkEntropy "1" 1001)).
Proof.
  intros H.
  destruct (proj1 (message_id_tells_role_and_uuid user assistant "hi" "hi"
                     (mkEntropy "1" 1001) (mkEntropy "1" 1001)) H) as [Hr _].
  discriminate Hr.
Defined.

End Fragments.

(** ** The microphone button *)

Section Microphone.
Import JS Panel View.

(** X16.  A click on the microphone never touches the conversation: the
    buffer, the pending input, the in-flight flag, the requests and the
    speech queue stay as they were.  Without a [window] it does nothing;
    when it ends without a recognizer it has done nothing or has recorded
    that voice input is not supported.  With one, it stops the capture when the
    page was rendered as listening (status [idle]); otherwise it starts it
    (status [initializing]), and when [start()] throws the status falls back
    to [idle] and the message of the exception is recorded. *)
Theorem microphone_click_outcomes (start_throws : option Thrown) (w : World) :
  let w' := handleToggleRecording start_throws w in
  (messages (state w') = messages (state w)
   ∧ pendingInput (state w') = pendingInput (state w)
   ∧ isProcessing (state w') = isProcessing (state w)
   ∧ messagesRef w' = messagesRef w
   ∧ fetched w' = fetched w
   ∧ awaiting w' = awaiting w
   ∧ speechQueue w' = speechQueue w)
  ∧ (recognitionRef w' = None →
     w' = w
     ∨ w' = setError (Some "Voice input is not supported in this browser.") w)
  ∧ (window_defined (platform w) = false → w' = w)
  ∧ (window_defined (platform w) = true →
     recognitionRef w' ≠ None →
     match status (rendered w), start_throws with
     | listening, _ =>
         status (state w') = idle ∧ error (state w') = error (state w)
     | _, None =>
         status (state w') = initializing ∧ error (state w') = error (state w)
     | _, Some err =>
         status (state w') = idle
         ∧ error (state w') = Some (message_or "Unable to start voice capture." err)
     end).
Proof.
  intros w'. subst w'. unfold handleToggleRecording, ensureRecognition.
  destruct (window_defined (platform w)); simpl.
  2: { split; [done|]. split; [by left|]. done. }
  destruct (recognitionRef w) as [r|] eqn:Hr; simpl.
  - destruct (status (rendered w)); simpl; try destruct start_throws; simpl;
      rewrite ?Hr; (split; [done|]); (split; [done|]); done.
  - destruct (recognition_supported (platform w)); simpl.
    + destruct (status (rendered w)); simpl; try destruct start_throws; simpl;
        (split; [done|]); (split; [done|]); done.
    + rewrite Hr. split; [done|]. split; [by right|]. done.
Qed.

Lemma microphone_click_outcomes_witness :
  let w' := handleToggleRecording (Some (ErrorWith "recognition has already started"))
              Scenario.page in
  status (state w') = idle
  ∧ error (state w') = Some "recognition has already started".
Proof.
  refine (proj2 (proj2 (proj2 (microphone_click_outcomes
            (Some (ErrorWith "recognition has already started")) Scenario.page)))
            eq_refl _).
  discriminate.
Defined.

End Microphone.
